(** * Workload-management dashboard: statistics aggregation, view state and polling

    A shallow embedding of [WorkloadManagementMain]
    (src/public/pages/QueryGroupDetails/Components/QueryGroupAggregateSummary.tsx):
    the refresh cycle [fetchStatsForNode], its helpers
    [fetchWorkloadGroupsWithLimits], [fetchWorkloadGroupNameMap],
    [fetchWorkloadGroupsForNode], [sortData] and [computeBoxStats], the
    table's page slice, and the polling effect on [selectedNode]. *)

From Stdlib Require Import QArith Qround Lia Lqa.
From stdpp Require Import base option list gmap strings sorting.

Open Scope Z_scope.

(** ** JavaScript numbers

    A [number] is NaN, an infinity, or a finite value.  Finite values are
    exact rationals: the rounding of binary64 arithmetic is left out, every
    other rule of the operators used by the component (NaN propagation,
    comparisons with NaN, truthiness, [Math.round], [Math.floor]) is written
    out.  Both zeros are the one rational zero. *)

Inductive number : Type :=
| NaN
| NegInfinity
| Fin (q : Q)
| PosInfinity.

Definition of_Z (z : Z) : number := Fin (inject_Z z).
Definition of_nat (n : nat) : number := of_Z (Z.of_nat n).

Module Number.

Definition isNaN (a : number) : bool :=
  match a with NaN => true | _ => false end.

(** [-a] *)
Definition neg (a : number) : number :=
  match a with
  | NaN => NaN
  | NegInfinity => PosInfinity
  | Fin q => Fin (- q)
  | PosInfinity => NegInfinity
  end.

(** [a + b] *)
Definition add (a b : number) : number :=
  match a, b with
  | NaN, _ | _, NaN => NaN
  | PosInfinity, NegInfinity | NegInfinity, PosInfinity => NaN
  | PosInfinity, _ | _, PosInfinity => PosInfinity
  | NegInfinity, _ | _, NegInfinity => NegInfinity
  | Fin x, Fin y => Fin (x + y)
  end.

(** [a - b] *)
Definition sub (a b : number) : number := add a (neg b).

(** The sign of a finite value, as a comparison with zero. *)
Definition sign (q : Q) : comparison := (q ?= 0)%Q.

Definition signed_infinity (c : comparison) : number :=
  match c with Lt => NegInfinity | Eq => NaN | Gt => PosInfinity end.

(** [a * b] *)
Definition mul (a b : number) : number :=
  match a, b with
  | NaN, _ | _, NaN => NaN
  | Fin x, Fin y => Fin (x * y)
  | PosInfinity, Fin y | Fin y, PosInfinity => signed_infinity (sign y)
  | NegInfinity, Fin y | Fin y, NegInfinity => signed_infinity (CompOpp (sign y))
  | PosInfinity, PosInfinity | NegInfinity, NegInfinity => PosInfinity
  | PosInfinity, NegInfinity | NegInfinity, PosInfinity => NegInfinity
  end.

(** [a < b]: false as soon as one side is NaN. *)
Definition lt (a b : number) : bool :=
  match a, b with
  | NaN, _ | _, NaN => false
  | _, NegInfinity => false
  | NegInfinity, _ => true
  | PosInfinity, _ => false
  | Fin _, PosInfinity => true
  | Fin x, Fin y => negb (Qle_bool y x)
  end.

(** [a > b] *)
Definition gt (a b : number) : bool := lt b a.

(** Truthiness of a number: [0] and [NaN] are falsy. *)
Definition truthy (a : number) : bool :=
  match a with
  | NaN => false
  | Fin q => negb (Qeq_bool q 0)
  | NegInfinity | PosInfinity => true
  end.

(** [Math.floor] *)
Definition floor (a : number) : number :=
  match a with Fin q => of_Z (Qfloor q) | _ => a end.

(** [Math.round]: the nearest integer, a tie going up. *)
Definition round (a : number) : number :=
  match a with Fin q => of_Z (Qfloor (q + (1 # 2))) | _ => a end.

(** The non-decreasing order on numbers other than NaN. *)
Definition le (a b : number) : Prop :=
  match a, b with
  | NaN, _ | _, NaN => False
  | NegInfinity, _ => True
  | _, PosInfinity => True
  | Fin x, Fin y => (x <= y)%Q
  | _, _ => False
  end.

End Number.

Declare Scope number_scope.
Delimit Scope number_scope with num.
Bind Scope number_scope with number.
Infix "+" := Number.add : number_scope.
Infix "-" := Number.sub : number_scope.
Infix "*" := Number.mul : number_scope.
Infix ">?" := Number.gt (at level 70) : number_scope.

(** [o ?? d] *)
Definition nullish {A} (o : option A) (d : A) : A :=
  match o with Some a => a | None => d end.

(** ** Arrays

    [Array.prototype.sort] with a comparison function.  The result of
    [comparefn] is a number; NaN counts as [+0].  The sort is stable, so for
    a consistent comparison function its result is the one stable sorted
    permutation; [Array_sort] computes it by stable insertion, which also
    fixes one of the orders an engine may produce when the function is not
    consistent. *)

Section ArraySort.
Context {A : Type} (comparefn : A → A → number).

(** [comparefn x y > 0]: [x] has to come after [y]. *)
Definition after (x y : A) : bool := Number.gt (comparefn x y) (of_Z 0).

Fixpoint sort_insert (x : A) (l : list A) : list A :=
  match l with
  | [] => [x]
  | y :: l' => if after x y then y :: sort_insert x l' else x :: y :: l'
  end.

Definition Array_sort (l : list A) : list A := foldr sort_insert [] l.
End ArraySort.

(** [arr.slice(start, end)] with integer arguments: a negative index counts
    from the end, both are clamped to the array. *)
Definition relative_index (len k : Z) : Z :=
  if k <? 0 then Z.max (len + k) 0 else Z.min k len.

Definition Array_slice {A} (l : list A) (start final : Z) : list A :=
  let len := Z.of_nat (length l) in
  let k := relative_index len start in
  let e := relative_index len final in
  take (Z.to_nat (Z.max (e - k) 0)) (drop (Z.to_nat k) l).

(** [arr[k]] for a number [k]: the element when [k] is an integer index of
    the array.  A read outside the array gives [undefined], rendered here as
    [NaN]; [computeBoxStats_reads] shows that [computeBoxStats] makes no such
    read. *)
Definition Array_get (l : list number) (k : number) : number :=
  match k with
  | Fin q =>
      if Qeq_bool q (inject_Z (Qfloor q)) && (0 <=? Qfloor q)
      then nth (Z.to_nat (Qfloor q)) l NaN
      else NaN
  | _ => NaN
  end.

(** ** computeBoxStats *)

Definition numeric_ascending (a b : number) : number := (a - b)%num.

Definition computeBoxStats (arr : list number) : list number :=
  if (length arr =? 0)%nat then [NaN; NaN; NaN; NaN; NaN]
  else
    let sorted := Array_sort numeric_ascending arr in
    let n := of_nat (length sorted) in
    [ Array_get sorted (of_Z 0);
      Array_get sorted (Number.floor (n * Fin 0.25)%num);
      Array_get sorted (Number.floor (n * Fin 0.5)%num);
      Array_get sorted (Number.floor (n * Fin 0.75)%num);
      Array_get sorted (n - of_Z 1)%num ].

(** The rank [floor(n * q)] in an array of [n] elements. *)
Definition floorRank (n : nat) (q : Q) : nat :=
  Z.to_nat (Qfloor (inject_Z (Z.of_nat n) * q)).

(** ** Strings

    [toLowerCase] and [localeCompare] depend on the engine's Unicode tables
    and locale; the component is stated over any pair of them. *)

Class Host := {
  toLowerCase : string → string;
  localeCompare : string → string → number;
}.

(** [s.includes(sub)] *)
Fixpoint String_includes (s sub : string) : bool :=
  if String.prefix sub s then true
  else match s with
       | EmptyString => false
       | String _ s' => String_includes s' sub
       end.

(** Truthiness of a string: only the empty string is falsy. *)
Definition truthy_string (s : string) : bool :=
  match s with EmptyString => false | _ => true end.

(** A host for plain ASCII text: letters A to Z are lowered, strings are
    compared by code unit. *)
Definition ascii_lower (c : Ascii.ascii) : Ascii.ascii :=
  let n := Ascii.nat_of_ascii c in
  if ((65 <=? n) && (n <=? 90))%nat then Ascii.ascii_of_nat (n + 32) else c.

Fixpoint ascii_toLowerCase (s : string) : string :=
  match s with
  | EmptyString => EmptyString
  | String c s' => String (ascii_lower c) (ascii_toLowerCase s')
  end.

Definition code_unit_compare (a b : string) : number :=
  match String.compare a b with
  | Lt => of_Z (-1)
  | Eq => of_Z 0
  | Gt => of_Z 1
  end.

#[export] Instance ascii_host : Host :=
  {| toLowerCase := ascii_toLowerCase; localeCompare := code_unit_compare |}.

(** ** Data model *)

(** The value of [cpu] and [memory] in a statistics response. *)
Record ResourceUsage := { current_usage : option number }.

Record GroupStats := {
  total_completions : option number;
  total_rejections : option number;
  total_cancellations : option number;
  cpu : option ResourceUsage;
  memory : option ResourceUsage;
}.

(** [resource_limits] of a workload group; a key the response leaves out
    reads as [undefined]. *)
Record ResourceLimits := {
  limits_cpu : option number;
  limits_memory : option number;
}.

Record WorkloadGroup := {
  _id : string;
  group_name : string;
  resource_limits : option ResourceLimits;
}.

(** An object whose keys are enumerated ([Object.entries], [for..in]): its
    own properties in order, each key once. *)
Definition object (A : Type) : Type := list (string * A).

(** [NodeStats]: one node's entry of [/api/_wlm/stats/{groupId}]. *)
Record NodeStats := {
  node_cpu : option ResourceUsage;
  node_memory : option ResourceUsage;
  workload_groups : option (gmap string GroupStats);
}.

(** One node's entry of [/api/_wlm/{nodeId}/stats]. *)
Record NodeGroups := { node_workload_groups : option (object GroupStats) }.

Record WorkloadGroupData := {
  name : option string;  (* [undefined] when the id has no entry in the name map *)
  cpuUsage : number;
  memoryUsage : number;
  totalCompletions : number;
  totalRejections : number;
  totalCancellations : number;
  topQueriesLink : string;
  cpuStats : list number;
  memStats : list number;
  cpuLimit : number;
  memLimit : number;
  groupId : string;
}.

#[export] Instance WorkloadGroupData_inhabited : Inhabited WorkloadGroupData :=
  populate {| name := None; cpuUsage := NaN; memoryUsage := NaN;
              totalCompletions := NaN; totalRejections := NaN;
              totalCancellations := NaN; topQueriesLink := "";
              cpuStats := []; memStats := []; cpuLimit := NaN;
              memLimit := NaN; groupId := "" |}.

(** Row objects live in a store and arrays hold references to them:
    [rawData], [filteredRawData], [sorted] and [paged] share the objects that
    the detail loop of [fetchStatsForNode] assigns to. *)
Definition Ref : Type := nat.
Definition Heap : Type := list WorkloadGroupData.

Definition deref (h : Heap) (r : Ref) : WorkloadGroupData := h !!! r.

(** The columns of the table declared [sortable]; the table reports a sort
    on no other field, and the initial [sortField] is [cpuUsage]. *)
Inductive SortField :=
| by_name
| by_cpuUsage
| by_memoryUsage
| by_totalCompletions
| by_totalRejections
| by_totalCancellations.

Inductive SortDirection := ASC | DESC.

Record SummaryStats := {
  totalGroups : number;
  stat_totalCompletions : number;
  stat_totalRejections : number;
  stat_totalCancellations : number;
  groupsExceedingLimits : number;
}.

(** The component's state.  [summaryStats] is [None] while the five
    statistics still hold their initial ['-']. *)
Record State := {
  heap : Heap;
  data : list Ref;
  filteredData : list Ref;
  searchQuery : string;
  loading : bool;
  lastUpdated : option Z;
  pageIndex : Z;
  pageSize : Z;
  sortField : SortField;
  sortDirection : SortDirection;
  nodeIds : list string;
  selectedNode : string;
  summaryStats : option SummaryStats;
}.

Definition DEFAULT_PAGE_INDEX : Z := 0.
Definition DEFAULT_PAGE_SIZE : Z := 10.

Definition initialState : State :=
  {| heap := []; data := []; filteredData := []; searchQuery := "";
     loading := false; lastUpdated := None;
     pageIndex := DEFAULT_PAGE_INDEX; pageSize := DEFAULT_PAGE_SIZE;
     sortField := by_cpuUsage; sortDirection := DESC;
     nodeIds := []; selectedNode := ""; summaryStats := None |}.

(** The rows an array of references shows. *)
Definition rows (h : Heap) (l : list Ref) : list WorkloadGroupData :=
  deref h <$> l.

(** ** The backend

    What [core.http.get] answers during one refresh cycle, per request of the
    cycle; [None] is a rejected request.  The workload-group list is
    requested twice, for the names and for the limits; its inner [None] is a
    body without [workload_groups]. *)
Record Http := {
  get_workload_group_for_names : option (option (list WorkloadGroup));
  get_node_stats : string → option (gmap string NodeGroups);
  get_workload_group_for_limits : option (option (list WorkloadGroup));
  get_group_stats : string → option (object NodeStats);
  now : Z;
}.

(** The limits kept per group id by [fetchWorkloadGroupsWithLimits]. *)
Record Limits := { limits_cpuLimit : number; limits_memLimit : number }.

(** [arr.filter(p)] for a predicate that may throw: the first exception
    leaves the filter. *)
Fixpoint Array_filter {A} (p : A → option bool) (l : list A) : option (list A) :=
  match l with
  | [] => Some []
  | x :: l' =>
      b ← p x;
      rest ← Array_filter p l';
      Some (if b : bool then x :: rest else rest)
  end.

(** [rows.slice(pageIndex * pageSize, (pageIndex + 1) * pageSize)], the
    expression of the refresh cycle and of the table's [items]. *)
Definition paginate {A} (rows : list A) (pageIndex pageSize : Z) : list A :=
  Array_slice rows (pageIndex * pageSize) ((pageIndex + 1) * pageSize).

(** ** The component *)

Section WorkloadManagementMain.
Context `{Host}.

Definition fetchWorkloadGroupNameMap (http : Http) : option (gmap string string) :=
  res ← get_workload_group_for_names http;
  let groups := nullish res [] in
  Some (foldl (λ map group, <[_id group := group_name group]> map) ∅ groups).

Definition fetchWorkloadGroupsForNode (http : Http) (nodeId : string)
  : option (object GroupStats) :=
  body ← get_node_stats http nodeId;
  Some (nullish (body !! nodeId ≫= node_workload_groups) []).

(** [limit ? Math.round(limit * 100) : NaN] *)
Definition toLimit (limit : option number) : number :=
  match limit with
  | Some v => if Number.truthy v then Number.round (v * of_Z 100) else NaN
  | None => NaN
  end.

Definition groupLimits (group : WorkloadGroup) : Limits :=
  {| limits_cpuLimit := toLimit (resource_limits group ≫= limits_cpu);
     limits_memLimit := toLimit (resource_limits group ≫= limits_memory) |}.

Definition fetchWorkloadGroupsWithLimits (http : Http) : gmap string Limits :=
  match get_workload_group_for_limits http with
  | Some res =>
      let workloadGroups := nullish res [] in
      foldl (λ acc group, <[_id group := groupLimits group]> acc) ∅ workloadGroups
  | None => ∅
  end.

(** [Math.round((usage?.current_usage ?? 0) * 100)] *)
Definition usagePct (usage : option ResourceUsage) : number :=
  Number.round (nullish (usage ≫= current_usage) (of_Z 0) * of_Z 100).

(** The object pushed on [rawData] for one entry of the node's groups.  An
    entry of [groupIdToLimits] always holds both limits, so the defaults of
    the destructuring apply exactly when the group has no entry. *)
Definition newRow (idToName : gmap string string) (groupIdToLimits : gmap string Limits)
    (entry : string * GroupStats) : WorkloadGroupData :=
  let '(id, groupStats) := entry in
  let limits := groupIdToLimits !! id in
  {| name := if String.eqb id "DEFAULT_WORKLOAD_GROUP" then Some id else idToName !! id;
     cpuUsage := usagePct (cpu groupStats);
     memoryUsage := usagePct (memory groupStats);
     totalCompletions := nullish (total_completions groupStats) (of_Z 0);
     totalRejections := nullish (total_rejections groupStats) (of_Z 0);
     totalCancellations := nullish (total_cancellations groupStats) (of_Z 0);
     topQueriesLink := "";
     cpuStats := [];
     memStats := [];
     cpuLimit := match limits with Some l => limits_cpuLimit l | None => of_Z 100 end;
     memLimit := match limits with Some l => limits_memLimit l | None => of_Z 100 end;
     groupId := id |}.

(** [g.name.toLowerCase().includes(searchQuery.toLowerCase())]; a [TypeError]
    when [g.name] is [undefined]. *)
Definition matchesSearch (h : Heap) (query : string) (g : Ref) : option bool :=
  n ← name (deref h g);
  Some (String_includes (toLowerCase n) (toLowerCase query)).

(** The value of a sortable column: a number, or the name. *)
Definition column (field : SortField)
  : (WorkloadGroupData → number) + (WorkloadGroupData → option string) :=
  match field with
  | by_name => inr name
  | by_cpuUsage => inl cpuUsage
  | by_memoryUsage => inl memoryUsage
  | by_totalCompletions => inl totalCompletions
  | by_totalRejections => inl totalRejections
  | by_totalCancellations => inl totalCancellations
  end.

(** [String(v)] of a name. *)
Definition String_of (v : option string) : string := nullish v "undefined".

Definition compareRows (field : SortField) (direction : SortDirection)
    (a b : WorkloadGroupData) : number :=
  match column field with
  | inl get =>
      let aVal := get a in
      let bVal := get b in
      match direction with ASC => aVal - bVal | DESC => bVal - aVal end
  | inr get =>
      let aVal := get a in
      let bVal := get b in
      match direction with
      | ASC => localeCompare (String_of aVal) (String_of bVal)
      | DESC => localeCompare (String_of bVal) (String_of aVal)
      end
  end%num.

Definition sortData (h : Heap) (rawData : list Ref) (field : SortField)
    (direction : SortDirection) : list Ref :=
  Array_sort (λ a b, compareRows field direction (deref h a) (deref h b)) rawData.

(** The samples of one group over the nodes of a detail response. *)
Definition nodeUsages (id : string) (stats : object NodeStats)
  : list number * list number :=
  foldl (λ '(cpuUsages, memUsages) '(currentNodeId, node),
           if String.eqb currentNodeId "_nodes" || String.eqb currentNodeId "cluster_name"
           then (cpuUsages, memUsages)
           else match workload_groups node ≫= (.!! id) with
                | Some nodeStats =>
                    (cpuUsages ++ [nullish (cpu nodeStats ≫= current_usage) (of_Z 0) * of_Z 100],
                     memUsages ++ [nullish (memory nodeStats ≫= current_usage) (of_Z 0) * of_Z 100])%num
                | None => (cpuUsages, memUsages)
                end)
        ([], []) stats.

Definition withStats (g : WorkloadGroupData) (cpu' mem' : list number) : WorkloadGroupData :=
  {| name := name g; cpuUsage := cpuUsage g; memoryUsage := memoryUsage g;
     totalCompletions := totalCompletions g; totalRejections := totalRejections g;
     totalCancellations := totalCancellations g; topQueriesLink := topQueriesLink g;
     cpuStats := cpu'; memStats := mem';
     cpuLimit := cpuLimit g; memLimit := memLimit g; groupId := groupId g |}.

(** One round of the detail loop: the request for [group], and on success
    the assignment of both box-plot arrays to the object; a rejected request
    is logged and the object is left as it is. *)
Definition fetchBoxStats (http : Http) (h : Heap) (group : Ref) : Heap :=
  let g := deref h group in
  match get_group_stats http (groupId g) with
  | Some stats =>
      let '(cpuUsages, memUsages) := nodeUsages (groupId g) stats in
      <[group := withStats g (computeBoxStats cpuUsages) (computeBoxStats memUsages)]> h
  | None => h
  end.

Definition exceedsLimits (g : WorkloadGroupData) : bool :=
  (cpuUsage g >? cpuLimit g)%num || (memoryUsage g >? memLimit g)%num.

(** [l.reduce((sum, g) => sum + f(g), 0)] *)
Definition total (f : WorkloadGroupData → number) (h : Heap) (l : list Ref) : number :=
  foldl (λ sum g, sum + f (deref h g))%num (of_Z 0) l.

Definition setSearchQuery (query : string) (st : State) : State :=
  {| heap := heap st; data := data st; filteredData := filteredData st;
     searchQuery := query; loading := loading st; lastUpdated := lastUpdated st;
     pageIndex := pageIndex st; pageSize := pageSize st;
     sortField := sortField st; sortDirection := sortDirection st;
     nodeIds := nodeIds st; selectedNode := selectedNode st;
     summaryStats := summaryStats st |}.

(** [setPageIndex(index); setPageSize(size)], the page part of
    [onTableChange]. *)
Definition setPage (index size : Z) (st : State) : State :=
  {| heap := heap st; data := data st; filteredData := filteredData st;
     searchQuery := searchQuery st; loading := loading st; lastUpdated := lastUpdated st;
     pageIndex := index; pageSize := size;
     sortField := sortField st; sortDirection := sortDirection st;
     nodeIds := nodeIds st; selectedNode := selectedNode st;
     summaryStats := summaryStats st |}.

Definition setLoading (b : bool) (st : State) : State :=
  {| heap := heap st; data := data st; filteredData := filteredData st;
     searchQuery := searchQuery st; loading := b; lastUpdated := lastUpdated st;
     pageIndex := pageIndex st; pageSize := pageSize st;
     sortField := sortField st; sortDirection := sortDirection st;
     nodeIds := nodeIds st; selectedNode := selectedNode st;
     summaryStats := summaryStats st |}.

(** The [try] block of [fetchStatsForNode]; [None] when an exception
    reaches its [catch]. *)
Definition fetchStatsForNode_try (http : Http) (nodeId : string) (st : State)
  : option State :=
  idToName ← fetchWorkloadGroupNameMap http;
  workloadGroups ← fetchWorkloadGroupsForNode http nodeId;
  let groupIdToLimits := fetchWorkloadGroupsWithLimits http in
  let rawData := seq (length (heap st)) (length workloadGroups) in
  let h := heap st ++ (newRow idToName groupIdToLimits <$> workloadGroups) in
  filteredRawData ←
    (if truthy_string (searchQuery st)
     then Array_filter (matchesSearch h (searchQuery st)) rawData
     else Some rawData);
  let sorted := sortData h filteredRawData (sortField st) (sortDirection st) in
  let paged := paginate sorted (pageIndex st) (pageSize st) in
  let h' := foldl (fetchBoxStats http) h paged in
  let overLimit :=
    length (List.filter (λ g, exceedsLimits (deref h' g)) filteredRawData) in
  Some {| heap := h'; data := sorted; filteredData := sorted;
          searchQuery := searchQuery st; loading := loading st;
          lastUpdated := Some (now http);
          pageIndex := pageIndex st; pageSize := pageSize st;
          sortField := sortField st; sortDirection := sortDirection st;
          nodeIds := nodeIds st; selectedNode := selectedNode st;
          summaryStats :=
            Some {| totalGroups := of_nat (length sorted);
                    stat_totalCompletions := total totalCompletions h' filteredRawData;
                    stat_totalRejections := total totalRejections h' filteredRawData;
                    stat_totalCancellations := total totalCancellations h' filteredRawData;
                    groupsExceedingLimits := of_nat overLimit |} |}.

Definition fetchStatsForNode (http : Http) (nodeId : string) (st : State) : State :=
  let st := setLoading true st in
  setLoading false (nullish (fetchStatsForNode_try http nodeId st) st).

(** The rows of the table, [data] of the state, and the page it shows. *)
Definition dataRows (st : State) : list WorkloadGroupData := rows (heap st) (data st).

Definition tableItems (st : State) : list WorkloadGroupData :=
  rows (heap st) (paginate (filteredData st) (pageIndex st) (pageSize st)).

(** *** The cycle read on the rows themselves

    The same steps without the store, used to state what a cycle leaves in
    the state. *)

(** [rawData]: the rows as fetched for the cycle, before any filtering. *)
Definition fetchedRows (http : Http) (nodeId : string)
  : option (list WorkloadGroupData) :=
  idToName ← fetchWorkloadGroupNameMap http;
  workloadGroups ← fetchWorkloadGroupsForNode http nodeId;
  Some (fmap (M:=list) (newRow idToName (fetchWorkloadGroupsWithLimits http))
          workloadGroups).

Definition matchesName (query : string) (g : WorkloadGroupData) : bool :=
  match name g with
  | Some n => String_includes (toLowerCase n) (toLowerCase query)
  | None => false
  end.

(** [filteredRawData], when no name is [undefined]. *)
Definition searchedRows (query : string) (fetched : list WorkloadGroupData)
  : list WorkloadGroupData :=
  if truthy_string query then List.filter (matchesName query) fetched else fetched.

(** What the detail round leaves in a row. *)
Definition withBoxStats (http : Http) (g : WorkloadGroupData) : WorkloadGroupData :=
  match get_group_stats http (groupId g) with
  | Some stats =>
      let '(cpuUsages, memUsages) := nodeUsages (groupId g) stats in
      withStats g (computeBoxStats cpuUsages) (computeBoxStats memUsages)
  | None => g
  end.

(** A row with a limit set: not both limits are the NaN sentinel. *)
Definition hasLimit (g : WorkloadGroupData) : bool :=
  negb (Number.isNaN (cpuLimit g) && Number.isNaN (memLimit g)).

(** A row whose CPU or memory usage is above 100. *)
Definition above100 (g : WorkloadGroupData) : bool :=
  (cpuUsage g >? of_Z 100)%num || (memoryUsage g >? of_Z 100)%num.

(** [l.reduce((sum, g) => sum + f(g), 0)] on rows. *)
Definition sumOf (f : WorkloadGroupData → number) (l : list WorkloadGroupData) : number :=
  foldl (λ sum g, sum + f g)%num (of_Z 0) l.

End WorkloadManagementMain.

(** ** Polling

    The effect on [selectedNode]: each run registers an interval of 60000 ms
    whose callback holds the [selectedNode] of its render, and leaves a
    cleanup that clears this interval.  The runtime runs the cleanup of the
    previous run before the next run, and at unmount.  Time is simulated, in
    milliseconds; a state change or an unmount of a component that is no
    longer mounted does nothing. *)

Definition POLL_INTERVAL : N := 60000.

Record Interval := {
  intervalId : nat;
  callbackNode : string;  (* [selectedNode] as the callback closed over it *)
  dueIn : N;              (* time left until the callback runs next *)
}.

Record Poller := {
  mounted : bool;
  polledNode : string;           (* [selectedNode] of the last render *)
  cleanup : option nat;          (* the [intervalId] the pending cleanup clears *)
  intervals : list Interval;     (* the intervals registered and not cleared *)
  nextIntervalId : nat;
}.

Definition setInterval (node : string) (delay : N) (p : Poller) : nat * Poller :=
  (nextIntervalId p,
   {| mounted := mounted p; polledNode := polledNode p; cleanup := cleanup p;
      intervals := intervals p ++
        [{| intervalId := nextIntervalId p; callbackNode := node; dueIn := delay |}];
      nextIntervalId := S (nextIntervalId p) |}).

Definition clearInterval (id : nat) (p : Poller) : Poller :=
  {| mounted := mounted p; polledNode := polledNode p; cleanup := cleanup p;
     intervals := List.filter (λ i, negb (intervalId i =? id)%nat) (intervals p);
     nextIntervalId := nextIntervalId p |}.

(** The body of the effect, for the render with [selectedNode = node]. *)
Definition runEffect (node : string) (p : Poller) : Poller :=
  let '(id, p) := setInterval node POLL_INTERVAL p in
  {| mounted := mounted p; polledNode := node; cleanup := Some id;
     intervals := intervals p; nextIntervalId := nextIntervalId p |}.

(** The function the effect returned. *)
Definition runCleanup (p : Poller) : Poller :=
  match cleanup p with
  | Some id =>
      let p := clearInterval id p in
      {| mounted := mounted p; polledNode := polledNode p; cleanup := None;
         intervals := intervals p; nextIntervalId := nextIntervalId p |}
  | None => p
  end.

(** The first render: [selectedNode] is the empty string. *)
Definition mount : Poller :=
  runEffect ""
    {| mounted := true; polledNode := ""; cleanup := None; intervals := [];
       nextIntervalId := 0 |}.

(** How often an interval runs while [ms] milliseconds pass, and the time
    then left until its next run. *)
Definition runsWithin (ms : N) (i : Interval) : N :=
  (if ms <? dueIn i then 0 else 1 + (ms - dueIn i) / POLL_INTERVAL)%N.

Definition elapse (ms : N) (i : Interval) : Interval :=
  {| intervalId := intervalId i; callbackNode := callbackNode i;
     dueIn := (if ms <? dueIn i then dueIn i - ms
               else POLL_INTERVAL - (ms - dueIn i) mod POLL_INTERVAL)%N |}.

(** One run of the callback: the node [fetchStatsForNode] is called with,
    if any. *)
Definition intervalCallback (i : Interval) : list string :=
  if truthy_string (callbackNode i) then [callbackNode i] else [].

Inductive Event :=
| SetSelectedNode (nodeId : string)
| Advance (ms : N)
| Unmount.

(** One event: the next state, and the periodic calls of
    [fetchStatsForNode] it causes, listed interval by interval. *)
Definition step (p : Poller) (e : Event) : Poller * list string :=
  match e with
  | SetSelectedNode nodeId =>
      if negb (mounted p) || String.eqb nodeId (polledNode p) then (p, [])
      else (runEffect nodeId (runCleanup p), [])
  | Advance ms =>
      ({| mounted := mounted p; polledNode := polledNode p; cleanup := cleanup p;
          intervals := elapse ms <$> intervals p;
          nextIntervalId := nextIntervalId p |},
       concat ((λ i, concat (replicate (N.to_nat (runsWithin ms i)) (intervalCallback i)))
                 <$> intervals p))
  | Unmount =>
      if negb (mounted p) then (p, [])
      else
        let p := runCleanup p in
        ({| mounted := false; polledNode := polledNode p; cleanup := cleanup p;
            intervals := intervals p; nextIntervalId := nextIntervalId p |}, [])
  end.

Definition run (p : Poller) (events : list Event) : Poller :=
  foldl (λ p e, fst (step p e)) p events.

(** What holds of the poller after any events: while the component is
    mounted the one registered interval is the one its pending cleanup
    clears, its callback holds the current [selectedNode], and it is due
    within one period; once unmounted no interval is left. *)
Definition poller_inv (p : Poller) : Prop :=
  if mounted p
  then ∃ id d, cleanup p = Some id ∧
         intervals p = [{| intervalId := id; callbackNode := polledNode p; dueIn := d |}] ∧
         (0 < d ≤ POLL_INTERVAL)%N
  else intervals p = [].

(** ** The handlers of the table and the node list *)

Definition setFilteredData (l : list Ref) (st : State) : State :=
  {| heap := heap st; data := data st; filteredData := l;
     searchQuery := searchQuery st; loading := loading st; lastUpdated := lastUpdated st;
     pageIndex := pageIndex st; pageSize := pageSize st;
     sortField := sortField st; sortDirection := sortDirection st;
     nodeIds := nodeIds st; selectedNode := selectedNode st;
     summaryStats := summaryStats st |}.

(** [setSortField(field); setSortDirection(direction)] *)
Definition setSort (field : SortField) (direction : SortDirection) (st : State) : State :=
  {| heap := heap st; data := data st; filteredData := filteredData st;
     searchQuery := searchQuery st; loading := loading st; lastUpdated := lastUpdated st;
     pageIndex := pageIndex st; pageSize := pageSize st;
     sortField := field; sortDirection := direction;
     nodeIds := nodeIds st; selectedNode := selectedNode st;
     summaryStats := summaryStats st |}.

Definition setNodeIds (nodes : list string) (st : State) : State :=
  {| heap := heap st; data := data st; filteredData := filteredData st;
     searchQuery := searchQuery st; loading := loading st; lastUpdated := lastUpdated st;
     pageIndex := pageIndex st; pageSize := pageSize st;
     sortField := sortField st; sortDirection := sortDirection st;
     nodeIds := nodes; selectedNode := selectedNode st;
     summaryStats := summaryStats st |}.

Definition setSelectedNode (node : string) (st : State) : State :=
  {| heap := heap st; data := data st; filteredData := filteredData st;
     searchQuery := searchQuery st; loading := loading st; lastUpdated := lastUpdated st;
     pageIndex := pageIndex st; pageSize := pageSize st;
     sortField := sortField st; sortDirection := sortDirection st;
     nodeIds := nodeIds st; selectedNode := node;
     summaryStats := summaryStats st |}.

(** The [criteria] the table hands to [onTableChange]: a sort, a page, or
    both. *)
Record Criteria := {
  criteria_sort : option (SortField * SortDirection);
  criteria_page : option (Z * Z);  (* [page.index], [page.size] *)
}.

Section Handlers.
Context `{Host}.

(** [g.name.toLowerCase().includes(workload)], for a [workload] that
    [onSearchChange] has lowered already. *)
Definition matchesLowered (h : Heap) (workload : string) (g : Ref) : option bool :=
  n ← name (deref h g);
  Some (String_includes (toLowerCase n) workload).

(** [onSearchChange] for the value typed in the search field.  [None] when
    the filter throws on a row without a name; what the component holds
    after that exception is not modelled. *)
Definition onSearchChange (value : string) (st : State) : option State :=
  let workload := toLowerCase value in
  let st := setSearchQuery workload st in
  if negb (truthy_string workload) then Some (setFilteredData (data st) st)
  else
    filtered ← Array_filter (matchesLowered (heap st) workload) (data st);
    Some (setFilteredData filtered st).

(** [onTableChange].  [None] when the filter throws on a row without a name:
    no setter has run by then, the state is the one before the call. *)
Definition onTableChange (criteria : Criteria) (st : State) : option State :=
  st ←
    match criteria_sort criteria with
    | Some (field, direction) =>
        let sorted := sortData (heap st) (data st) field direction in
        filteredSortedData ←
          (if truthy_string (searchQuery st)
           then Array_filter (matchesSearch (heap st) (searchQuery st)) sorted
           else Some sorted);
        Some (setFilteredData filteredSortedData (setSort field direction st))
    | None => Some st
    end;
  Some match criteria_page criteria with
       | Some (index, size) => setPage index size st
       | None => st
       end.

(** [pagination.totalItemCount] *)
Definition totalItemCount (st : State) : nat := length (filteredData st).

(** [fetchDataFromBackend].  [nodesResponse] is the answer to
    [/api/_wlm_proxy/_nodes]: [None] a rejected request, an inner [None] a
    body without [nodes], else the keys of [nodes] in order.  The result is
    the state and the titles of the toasts shown. *)
Definition fetchDataFromBackend (nodesResponse : option (option (list string)))
    (http : Http) (st : State) : State * list string :=
  let st := setLoading true st in
  match nodesResponse with
  | Some response =>
      let nodes := nullish response [] in
      let st := setNodeIds nodes st in
      match nodes with
      | [] => (setLoading false st, [])
      | first :: _ =>
          let defaultNode :=
            if truthy_string (selectedNode st) then selectedNode st else first in
          let st := setSelectedNode defaultNode st in
          (setLoading false (fetchStatsForNode http defaultNode st), [])
      end
  | None => (setLoading false st, ["Failed to fetch node list"])
  end.

End Handlers.

(** ** The box-plot chart

    The part of [getBoxplotOption] that depends on its arguments: the five
    values of the series, read from a sorted copy of [box] ([undefined] past
    its end), the limit line, and the fixed axis.  Styling and the tooltip's
    formatter are left out. *)

Record BoxplotOption := {
  xAxis_min : number;
  xAxis_max : number;
  series_data : list (option number);
  markLine_xAxis : number;
}.

Definition getBoxplotOption (box : list number) (limit : number) : BoxplotOption :=
  let sorted := Array_sort numeric_ascending box in
  {| xAxis_min := of_Z 0;
     xAxis_max := of_Z 100;
     series_data := [sorted !! 0%nat; sorted !! 1%nat; sorted !! 2%nat;
                     sorted !! 3%nat; sorted !! 4%nat];
     markLine_xAxis := limit |}.

(** ** The aggregate summary of a query group

    [QueryGroupAggregateSummary]: the number of queries in its heading. *)

Record Measurement := {
  measurement_number : option number;
  measurement_count : option number;
}.

Record Measurements := {
  measured_latency : option Measurement;
  measured_cpu : option Measurement;
  measured_memory : option Measurement;
}.

(** [a || b] for values that are a number or [undefined]. *)
Definition or_else (a b : option number) : option number :=
  match a with
  | Some v => if Number.truthy v then a else b
  | None => b
  end.

(** [measurements.latency?.count || measurements.cpu?.count ||
     measurements.memory?.count || 1] *)
Definition queryCount (measurements : Measurements) : number :=
  nullish
    (or_else
       (or_else
          (or_else (measured_latency measurements ≫= measurement_count)
                   (measured_cpu measurements ≫= measurement_count))
          (measured_memory measurements ≫= measurement_count))
       (Some (of_Z 1)))
    (of_Z 1).

(** [a === b] on numbers. *)
Definition strict_equal (a b : number) : bool :=
  match a, b with
  | Fin x, Fin y => Qeq_bool x y
  | NegInfinity, NegInfinity | PosInfinity, PosInfinity => true
  | _, _ => false
  end.

(** [queryCount === 1 ? 'query' : 'queries'] *)
Definition queryNoun (measurements : Measurements) : string :=
  if strict_equal (queryCount measurements) (of_Z 1) then "query" else "queries".

(** ** The application shell

    [QueryInsightsDashboardsApp] (src/public/components/app.tsx): the routes
    put in the [Switch] for a path, the first of which is rendered. *)

Inductive Page := WorkloadManagementPage | TopNQueriesPage.

Definition QueryInsightsDashboardsApp (pathname : string) : list Page :=
  let isWLMApp := String_includes pathname "workloadManagement" in
  (if isWLMApp then [WorkloadManagementPage] else [])
  ++ (if negb isWLMApp then [TopNQueriesPage] else []).

(** ** The callback of the polling interval

    Each render creates [fetchStatsForNode] anew; the function reads
    [searchQuery], [sortField], [sortDirection], [pageIndex] and [pageSize]
    as constants of its render, while the setters it calls act on the state
    at the time of the call.  The effect on [selectedNode] runs after the
    first render and after each render in which [selectedNode] differs from
    the render before; the callback it registers holds [selectedNode] and
    [fetchStatsForNode] of that render until the effect runs again.  The
    handlers of the table, of the node selection and of the Refresh button
    are those of the last render. *)

Record Closure := {
  seenNode : string;
  seenSearchQuery : string;
  seenSortField : SortField;
  seenSortDirection : SortDirection;
  seenPageIndex : Z;
  seenPageSize : Z;
}.

(** What the functions of a render with state [st] hold. *)
Definition closureOf (st : State) : Closure :=
  {| seenNode := selectedNode st; seenSearchQuery := searchQuery st;
     seenSortField := sortField st; seenSortDirection := sortDirection st;
     seenPageIndex := pageIndex st; seenPageSize := pageSize st |}.

(** The state with the search text, sort and page a closure holds. *)
Definition withView (c : Closure) (st : State) : State :=
  {| heap := heap st; data := data st; filteredData := filteredData st;
     searchQuery := seenSearchQuery c; loading := loading st;
     lastUpdated := lastUpdated st;
     pageIndex := seenPageIndex c; pageSize := seenPageSize c;
     sortField := seenSortField c; sortDirection := seenSortDirection c;
     nodeIds := nodeIds st; selectedNode := selectedNode st;
     summaryStats := summaryStats st |}.

Record Component := {
  current : State;     (* the state of the last render *)
  polling : Closure;   (* what the callback of the registered interval holds *)
}.

Inductive Action :=
| SearchChange (value : string)
| TableChange (criteria : Criteria)
| NodeChange (nodeId : string)
| Refresh
| DataSourceChange (nodesResponse : option (option (list string)))
| PollingTick.

(** The actions that leave [selectedNode] as it is. *)
Definition keepsSelection (a : Action) : bool :=
  match a with
  | NodeChange _ | DataSourceChange _ => false
  | _ => true
  end.

Section Closures.
Context `{Host}.

(** The [try] block of the [fetchStatsForNode] that the render of [c]
    created, run on the state [st]. *)
Definition fetchStatsForNode_try_in (c : Closure) (http : Http) (nodeId : string)
    (st : State) : option State :=
  idToName ← fetchWorkloadGroupNameMap http;
  workloadGroups ← fetchWorkloadGroupsForNode http nodeId;
  let groupIdToLimits := fetchWorkloadGroupsWithLimits http in
  let rawData := seq (length (heap st)) (length workloadGroups) in
  let h := heap st ++ (newRow idToName groupIdToLimits <$> workloadGroups) in
  filteredRawData ←
    (if truthy_string (seenSearchQuery c)
     then Array_filter (matchesSearch h (seenSearchQuery c)) rawData
     else Some rawData);
  let sorted := sortData h filteredRawData (seenSortField c) (seenSortDirection c) in
  let paged := paginate sorted (seenPageIndex c) (seenPageSize c) in
  let h' := foldl (fetchBoxStats http) h paged in
  let overLimit :=
    length (List.filter (λ g, exceedsLimits (deref h' g)) filteredRawData) in
  Some {| heap := h'; data := sorted; filteredData := sorted;
          searchQuery := searchQuery st; loading := loading st;
          lastUpdated := Some (now http);
          pageIndex := pageIndex st; pageSize := pageSize st;
          sortField := sortField st; sortDirection := sortDirection st;
          nodeIds := nodeIds st; selectedNode := selectedNode st;
          summaryStats :=
            Some {| totalGroups := of_nat (length sorted);
                    stat_totalCompletions := total totalCompletions h' filteredRawData;
                    stat_totalRejections := total totalRejections h' filteredRawData;
                    stat_totalCancellations := total totalCancellations h' filteredRawData;
                    groupsExceedingLimits := of_nat overLimit |} |}.

Definition fetchStatsForNode_in (c : Closure) (http : Http) (nodeId : string)
    (st : State) : State :=
  let st := setLoading true st in
  setLoading false (nullish (fetchStatsForNode_try_in c http nodeId st) st).

(** The callback of the interval: [if (selectedNode) fetchStatsForNode(selectedNode)]. *)
Definition pollingCallback (c : Closure) (http : Http) (st : State) : State :=
  if truthy_string (seenNode c) then fetchStatsForNode_in c http (seenNode c) st
  else st.

(** The state an action leaves; [None] when its handler throws. *)
Definition handle (http : Http) (a : Action) (comp : Component) : option State :=
  let st := current comp in
  match a with
  | SearchChange value => onSearchChange value st
  | TableChange criteria => onTableChange criteria st
  | NodeChange nodeId =>
      Some (fetchStatsForNode http nodeId (setSelectedNode nodeId st))
  | Refresh => Some (fetchStatsForNode http (selectedNode st) st)
  | DataSourceChange nodesResponse =>
      Some (fetchDataFromBackend nodesResponse http st).1
  | PollingTick => Some (pollingCallback (polling comp) http st)
  end.

(** The effect on [selectedNode] after a render with state [st]. *)
Definition pollingEffect (st : State) (c : Closure) : Closure :=
  if String.eqb (selectedNode st) (seenNode c) then c else closureOf st.

Definition act (http : Http) (a : Action) (comp : Component) : option Component :=
  st ← handle http a comp;
  Some {| current := st; polling := pollingEffect st (polling comp) |}.

(** Actions in turn, each with the answers of the backend at its time. *)
Fixpoint runActions (actions : list (Http * Action)) (comp : Component)
  : option Component :=
  match actions with
  | [] => Some comp
  | (http, a) :: actions => comp ← act http a comp; runActions actions comp
  end.

End Closures.

(** The first render. *)
Definition initialComponent : Component :=
  {| current := initialState; polling := closureOf initialState |}.

(** ** An example cluster

    Three groups on node [n1]; group [c] has no limits and uses four times
    the memory of the node.  The detail request for group [b] is rejected,
    the others answer with two nodes. *)

Definition usage (q : Q) : option ResourceUsage :=
  Some {| current_usage := Some (Fin q) |}.

Definition example_stats (completions rejections cancellations : Z)
    (cpu' memory' : Q) : GroupStats :=
  {| total_completions := Some (of_Z completions);
     total_rejections := Some (of_Z rejections);
     total_cancellations := Some (of_Z cancellations);
     cpu := usage cpu'; memory := usage memory' |}.

Definition example_groups : list WorkloadGroup :=
  [ {| _id := "a"; group_name := "Alpha";
       resource_limits := Some {| limits_cpu := Some (Fin 0.5);
                                  limits_memory := Some (Fin 0) |} |};
    {| _id := "b"; group_name := "Beta";
       resource_limits := Some {| limits_cpu := Some (Fin 0.5);
                                  limits_memory := Some (Fin 0.8) |} |};
    {| _id := "c"; group_name := "Gamma"; resource_limits := None |} ].

Definition example_node_groups : object GroupStats :=
  [ ("a", example_stats 1 2 3 0.6 0.3);
    ("b", example_stats 10 20 30 0.4 0.1);
    ("c", example_stats 100 200 300 0.2 4.0) ].

Definition example_detail (id : string) : object NodeStats :=
  [ ("_nodes", {| node_cpu := None; node_memory := None; workload_groups := None |});
    ("n1", {| node_cpu := None; node_memory := None;
              workload_groups := Some {[ id := example_stats 0 0 0 0.3 0.1 ]} |});
    ("n2", {| node_cpu := None; node_memory := None;
              workload_groups := Some {[ id := example_stats 0 0 0 0.9 0.2 ]} |}) ].

Definition example_http : Http :=
  {| get_workload_group_for_names := Some (Some example_groups);
     get_node_stats := λ nodeId,
       Some {[ nodeId := {| node_workload_groups := Some example_node_groups |} ]};
     get_workload_group_for_limits := Some (Some example_groups);
     get_group_stats := λ id, if String.eqb id "b" then None else Some (example_detail id);
     now := 1700000000000 |}.

(** The same cluster when the request for the limits is rejected, with
    group [b] at 160 % CPU. *)
Definition example_http_no_limits : Http :=
  {| get_workload_group_for_names := Some (Some example_groups);
     get_node_stats := λ nodeId,
       Some {[ nodeId := {| node_workload_groups :=
                 Some [ ("a", example_stats 1 2 3 0.6 0.3);
                        ("b", example_stats 10 20 30 1.6 0.1);
                        ("c", example_stats 100 200 300 0.2 4.0) ] |} ]};
     get_workload_group_for_limits := None;
     get_group_stats := λ id, Some (example_detail id);
     now := 1700000000000 |}.

(** The same cluster with a fourth group [d] on the node that the group list
    does not name. *)
Definition example_http_unnamed : Http :=
  {| get_workload_group_for_names := Some (Some example_groups);
     get_node_stats := λ nodeId,
       Some {[ nodeId := {| node_workload_groups :=
                 Some (example_node_groups ++ [("d", example_stats 5 5 5 0.1 0.1)]) |} ]};
     get_workload_group_for_limits := Some (Some example_groups);
     get_group_stats := λ id, Some (example_detail id);
     now := 1700000000000 |}.

(** The cluster when the request for the workload-group names is rejected,
    and when the statistics response leaves the node out. *)
Definition example_http_down : Http :=
  {| get_workload_group_for_names := None;
     get_node_stats := get_node_stats example_http;
     get_workload_group_for_limits := None;
     get_group_stats := λ _, None;
     now := 1700000060000 |}.

Definition example_http_other_node : Http :=
  {| get_workload_group_for_names := Some (Some example_groups);
     get_node_stats := λ _,
       Some {[ "n2" := {| node_workload_groups := Some example_node_groups |} ]};
     get_workload_group_for_limits := Some (Some example_groups);
     get_group_stats := λ id, Some (example_detail id);
     now := 1700000060000 |}.

(** The cluster when no node reports group [c] in its detail response. *)
Definition example_http_unreported : Http :=
  {| get_workload_group_for_names := Some (Some example_groups);
     get_node_stats := get_node_stats example_http;
     get_workload_group_for_limits := Some (Some example_groups);
     get_group_stats := λ id,
       Some (if String.eqb id "c" then example_detail "other" else example_detail id);
     now := 1700000060000 |}.

(** * Properties *)

(** ** Numbers *)

Lemma Qfloor_inject_Z (z : Z) : Qfloor (inject_Z z) = z.
Proof. unfold Qfloor, inject_Z. apply Z.div_1_r. Qed.

Lemma gt_NaN_r (a : number) : (a >? NaN)%num = false.
Proof. by destruct a. Qed.

Lemma Number_le_refl (a : number) : Number.isNaN a = false → Number.le a a.
Proof. destruct a; simpl; try done. intros _. apply Qle_refl. Qed.

Lemma Number_le_trans (a b c : number) : Number.le a b → Number.le b c → Number.le a c.
Proof.
  destruct a, b, c; simpl; try done. apply Qle_trans.
Qed.

#[export] Instance Number_le_transitive : Transitive Number.le.
Proof. intros a b c. apply Number_le_trans. Qed.

(** The sign of [a - b] decides the order of two numbers other than NaN;
    the difference of two equal infinities is NaN, which is not positive. *)
Lemma after_numeric_ascending (a b : number) :
  Number.isNaN a = false → Number.isNaN b = false →
  if after numeric_ascending a b then Number.le b a else Number.le a b.
Proof.
  unfold after, numeric_ascending, Number.gt, of_Z.
  destruct a as [| |x|], b as [| |y|]; simpl; try done.
  intros _ _. destruct (Qle_bool (x + - y) (inject_Z 0)) eqn:E; simpl.
  - apply Qle_bool_iff in E. unfold inject_Z in E. lra.
  - assert (¬ (x + - y <= inject_Z 0)%Q) as E'.
    { intros E'. apply Qle_bool_iff in E'. congruence. }
    unfold inject_Z in E'. lra.
Qed.

(** ** Array.prototype.sort *)

Section ArraySortFacts.
Context {A : Type} (comparefn : A → A → number).

Lemma sort_insert_Permutation (x : A) (l : list A) :
  sort_insert comparefn x l ≡ₚ x :: l.
Proof.
  induction l as [|y l IH]; simpl; [done|].
  destruct (after comparefn x y); [|done].
  rewrite IH. apply Permutation_swap.
Qed.

Lemma Array_sort_Permutation (l : list A) : Array_sort comparefn l ≡ₚ l.
Proof.
  induction l as [|x l IH]; simpl; [done|].
  rewrite sort_insert_Permutation. by rewrite IH.
Qed.

Lemma Array_sort_length (l : list A) : length (Array_sort comparefn l) = length l.
Proof. by rewrite Array_sort_Permutation. Qed.

(** On elements where the comparison function decides an order [R], the
    result is sorted by [R]. *)
Context (R : relation A) (P : A → Prop).
Hypothesis after_decides :
  ∀ x y, P x → P y → if after comparefn x y then R y x else R x y.

Lemma HdRel_sort_insert (a x : A) (l : list A) :
  R a x → HdRel R a l → HdRel R a (sort_insert comparefn x l).
Proof.
  intros Hax Hal. destruct Hal as [|y l Hay]; simpl; [by constructor|].
  destruct (after comparefn x y); by constructor.
Qed.

Lemma Sorted_sort_insert (x : A) (l : list A) :
  P x → Forall P l → Sorted R l → Sorted R (sort_insert comparefn x l).
Proof.
  intros Hx Hl Hs. induction Hs as [|y l Hs IH Hy]; simpl.
  - by repeat constructor.
  - apply Forall_cons in Hl as [Py Hl].
    specialize (after_decides x y Hx Py).
    destruct (after comparefn x y).
    + constructor; [by apply IH|]. by apply HdRel_sort_insert.
    + by repeat constructor.
Qed.

Lemma Sorted_Array_sort (l : list A) : Forall P l → Sorted R (Array_sort comparefn l).
Proof.
  induction 1 as [|x l Hx Hl IH]; simpl; [constructor|].
  apply Sorted_sort_insert; [done| |done].
  by rewrite Array_sort_Permutation.
Qed.

End ArraySortFacts.

(** In a sorted list a later position holds a greater or equal element. *)
Lemma Sorted_le_lookup (l : list number) (i j : nat) (a b : number) :
  Sorted Number.le l → Forall (λ x, Number.isNaN x = false) l →
  (i ≤ j)%nat → l !! i = Some a → l !! j = Some b → Number.le a b.
Proof.
  intros Hs Hn Hij Ha Hb.
  apply Sorted_StronglySorted in Hs; [|apply _].
  destruct (decide (i = j)) as [->|Hne].
  - assert (a = b) as -> by congruence.
    apply Number_le_refl. by eapply Forall_lookup_1 in Hn.
  - revert i j Hij Hne Ha Hb.
    induction Hs as [|x l Hs IH Hx]; intros i j Hij Hne Ha Hb; [done|].
    apply Forall_cons in Hn as [_ Hn].
    destruct i as [|i], j as [|j]; simpl in *; try lia.
    + injection Ha as ->. eapply Forall_lookup_1 in Hx; eauto.
    + apply (IH Hn i j); [lia|lia|done|done].
Qed.

(** ** Reads of [computeBoxStats] *)

Lemma floorRank_scaled (n a b c : nat) :
  (0 < b)%nat → (0 < c)%nat →
  Z.to_nat ((Z.of_nat n * Z.of_nat (a * c)) / Z.of_nat (b * c)) = (a * n / b)%nat.
Proof.
  intros Hb Hc. rewrite <- (Nat2Z.id (a * n / b)). f_equal.
  rewrite Nat2Z.inj_div, !Nat2Z.inj_mul.
  replace (Z.of_nat n * (Z.of_nat a * Z.of_nat c))
    with ((Z.of_nat a * Z.of_nat n) * Z.of_nat c) by lia.
  apply Z.div_mul_cancel_r; lia.
Qed.

Lemma floorRank_quarter (n : nat) : floorRank n 0.25 = (n / 4)%nat.
Proof.
  rewrite <- (Nat.mul_1_l n) at 2. apply (floorRank_scaled n 1 4 25); lia.
Qed.

Lemma floorRank_half (n : nat) : floorRank n 0.5 = (n / 2)%nat.
Proof.
  rewrite <- (Nat.mul_1_l n) at 2. apply (floorRank_scaled n 1 2 5); lia.
Qed.

Lemma floorRank_three_quarters (n : nat) : floorRank n 0.75 = (3 * n / 4)%nat.
Proof. apply (floorRank_scaled n 3 4 25); lia. Qed.

(** The five ranks are in the array and in order. *)
Lemma ranks_ordered (n : nat) :
  (0 < n)%nat →
  (n / 4 ≤ n / 2 ∧ n / 2 ≤ 3 * n / 4 ∧ 3 * n / 4 ≤ n - 1)%nat.
Proof.
  intros Hn.
  pose proof (Nat.div_mod_eq n 4). pose proof (Nat.mod_upper_bound n 4).
  pose proof (Nat.div_mod_eq n 2). pose proof (Nat.mod_upper_bound n 2).
  pose proof (Nat.div_mod_eq (3 * n) 4). pose proof (Nat.mod_upper_bound (3 * n) 4).
  lia.
Qed.

Lemma Array_get_integer (l : list number) (q : Q) (k : nat) :
  (q == inject_Z (Z.of_nat k))%Q → Array_get l (Fin q) = nth k l NaN.
Proof.
  intros Hq. unfold Array_get.
  assert (Qfloor q = Z.of_nat k) as Hf.
  { rewrite (Qfloor_comp _ _ Hq). apply Qfloor_inject_Z. }
  rewrite Hf, Nat2Z.id.
  assert (Qeq_bool q (inject_Z (Z.of_nat k)) = true) as ->
    by (apply Qeq_bool_iff; exact Hq).
  assert ((0 <=? Z.of_nat k) = true) as -> by lia.
  done.
Qed.

Lemma Array_get_floorRank (l : list number) (n : nat) (q : Q) :
  (0 <= q)%Q →
  Array_get l (Number.floor (of_nat n * Fin q)%num) = nth (floorRank n q) l NaN.
Proof.
  intros Hq. simpl. apply Array_get_integer. unfold floorRank.
  rewrite Z2Nat.id; [done|].
  rewrite <- (Qfloor_inject_Z 0). apply Qfloor_resp_le.
  apply Qmult_le_0_compat; [|done].
  unfold inject_Z, Qle; simpl. lia.
Qed.

Lemma nth_lookup_Some (l : list number) (i : nat) :
  (i < length l)%nat → l !! i = Some (nth i l NaN).
Proof.
  intros Hi. destruct (nth_lookup_or_length l i NaN) as [?|?]; [done|lia].
Qed.

(** On a non-empty array every read of [computeBoxStats] is inside the
    sorted copy, at the ranks [0], [floor(n/4)], [floor(n/2)], [floor(3n/4)]
    and [n - 1]. *)
Lemma computeBoxStats_reads (arr : list number) :
  arr ≠ [] →
  let sorted := Array_sort numeric_ascending arr in
  let n := length arr in
  ∃ min q1 median q3 max,
    sorted !! 0%nat = Some min ∧
    sorted !! floorRank n 0.25 = Some q1 ∧
    sorted !! floorRank n 0.5 = Some median ∧
    sorted !! floorRank n 0.75 = Some q3 ∧
    sorted !! (n - 1)%nat = Some max ∧
    computeBoxStats arr = [min; q1; median; q3; max].
Proof.
  intros Hne sorted n.
  assert (0 < n)%nat as Hn by (subst n; destruct arr; simpl; [done|lia]).
  assert (length sorted = n) as Hlen by apply Array_sort_length.
  exists (nth 0 sorted NaN), (nth (floorRank n 0.25) sorted NaN),
    (nth (floorRank n 0.5) sorted NaN), (nth (floorRank n 0.75) sorted NaN),
    (nth (n - 1) sorted NaN).
  destruct (ranks_ordered n Hn) as (H1 & H2 & H3).
  rewrite floorRank_quarter, floorRank_half, floorRank_three_quarters.
  repeat split; try (apply nth_lookup_Some; lia).
  unfold computeBoxStats. fold n.
  destruct (n =? 0)%nat eqn:E; [apply Nat.eqb_eq in E; lia|].
  fold sorted. rewrite Hlen.
  rewrite !Array_get_floorRank by done.
  rewrite floorRank_quarter, floorRank_half, floorRank_three_quarters.
  replace (Array_get sorted (of_nat n - of_Z 1)%num) with (nth (n - 1) sorted NaN);
    [done|].
  symmetry. apply Array_get_integer.
  unfold of_nat, of_Z, inject_Z, Qeq; simpl. lia.
Qed.

Lemma Sorted_numeric_ascending (arr : list number) :
  Forall (λ x, Number.isNaN x = false) arr →
  Sorted Number.le (Array_sort numeric_ascending arr).
Proof.
  apply Sorted_Array_sort. intros x y. apply after_numeric_ascending.
Qed.

(** ** computeBoxStats *)

(** C4: [computeBoxStats] of the empty sequence is five times NaN. *)
Theorem computeBoxStats_empty : computeBoxStats [] = [NaN; NaN; NaN; NaN; NaN].
Proof. reflexivity. Qed.

(** C3: on a non-empty sequence of [n] numbers, [computeBoxStats] sorts a
    copy with the numeric comparison function [a - b] and returns the
    elements of the sorted copy at the ranks [0], [floor(n * 0.25)],
    [floor(n * 0.5)], [floor(n * 0.75)] and [n - 1].  The sorted copy is a
    rearrangement of the input, ascending when the input holds no NaN; every
    component is an element of the input, so nothing is interpolated. *)
Theorem computeBoxStats_floor_ranks (arr : list number) :
  arr ≠ [] →
  let sorted := Array_sort numeric_ascending arr in
  let n := length arr in
  sorted ≡ₚ arr ∧
  (Forall (λ x, Number.isNaN x = false) arr → Sorted Number.le sorted) ∧
  ∃ min q1 median q3 max,
    sorted !! 0%nat = Some min ∧
    sorted !! floorRank n 0.25 = Some q1 ∧
    sorted !! floorRank n 0.5 = Some median ∧
    sorted !! floorRank n 0.75 = Some q3 ∧
    sorted !! (n - 1)%nat = Some max ∧
    computeBoxStats arr = [min; q1; median; q3; max] ∧
    Forall (λ x, x ∈ arr) [min; q1; median; q3; max].
Proof.
  intros Hne sorted n.
  split; [apply Array_sort_Permutation|].
  split; [apply Sorted_numeric_ascending|].
  destruct (computeBoxStats_reads arr Hne)
    as (a & b & c & d & e & Ha & Hb & Hc & Hd & He & Heq).
  exists a, b, c, d, e. repeat split; try done.
  repeat constructor;
    (rewrite <- (Array_sort_Permutation numeric_ascending arr);
     eapply list_elem_of_lookup_2; eassumption).
Qed.

Lemma computeBoxStats_floor_ranks_witness :
  let arr := [of_Z 40; of_Z 10; of_Z 30; of_Z 20] in
  arr ≠ [] ∧
  Array_sort numeric_ascending arr = [of_Z 10; of_Z 20; of_Z 30; of_Z 40] ∧
  computeBoxStats arr = [of_Z 10; of_Z 20; of_Z 30; of_Z 40; of_Z 40] ∧
  ∃ min q1 median q3 max,
    Array_sort numeric_ascending arr !! 0%nat = Some min ∧
    Array_sort numeric_ascending arr !! floorRank (length arr) 0.25 = Some q1 ∧
    Array_sort numeric_ascending arr !! floorRank (length arr) 0.5 = Some median ∧
    Array_sort numeric_ascending arr !! floorRank (length arr) 0.75 = Some q3 ∧
    Array_sort numeric_ascending arr !! (length arr - 1)%nat = Some max ∧
    computeBoxStats arr = [min; q1; median; q3; max] ∧
    Forall (λ x, x ∈ arr) [min; q1; median; q3; max].
Proof.
  intros arr.
  assert (arr ≠ []) as Hne by discriminate.
  split; [exact Hne|].
  split; [reflexivity|].
  split; [reflexivity|].
  exact (proj2 (proj2 (computeBoxStats_floor_ranks arr Hne))).
Defined.

(** C6: on a non-empty sequence of numbers other than NaN, the five
    components returned by [computeBoxStats] are non-decreasing:
    min <= Q1 <= median <= Q3 <= max. *)
Theorem computeBoxStats_non_decreasing (arr : list number) :
  arr ≠ [] →
  Forall (λ x, Number.isNaN x = false) arr →
  ∃ min q1 median q3 max,
    computeBoxStats arr = [min; q1; median; q3; max] ∧
    Number.le min q1 ∧ Number.le q1 median ∧
    Number.le median q3 ∧ Number.le q3 max.
Proof.
  intros Hne Hnan.
  destruct (computeBoxStats_reads arr Hne)
    as (a & b & c & d & e & Ha & Hb & Hc & Hd & He & Heq).
  rewrite floorRank_quarter in Hb. rewrite floorRank_half in Hc.
  rewrite floorRank_three_quarters in Hd.
  assert (0 < length arr)%nat as Hn by (destruct arr; simpl; [done|lia]).
  destruct (ranks_ordered _ Hn) as (H1 & H2 & H3).
  pose proof (Sorted_numeric_ascending arr Hnan) as Hs.
  assert (Forall (λ x, Number.isNaN x = false) (Array_sort numeric_ascending arr))
    as Hnan' by by rewrite Array_sort_Permutation.
  exists a, b, c, d, e. split; [done|].
  pose proof (λ i j x y, Sorted_le_lookup _ i j x y Hs Hnan') as Hle.
  repeat split.
  - apply (Hle _ _ a b (Nat.le_0_l _) Ha Hb).
  - apply (Hle _ _ b c H1 Hb Hc).
  - apply (Hle _ _ c d H2 Hc Hd).
  - apply (Hle _ _ d e H3 Hd He).
Qed.

Lemma computeBoxStats_non_decreasing_witness :
  ∃ min q1 median q3 max,
    computeBoxStats [of_Z 7; Fin 2.5; PosInfinity; of_Z (-3); Fin 2.5; NegInfinity]
    = [min; q1; median; q3; max] ∧
    Number.le min q1 ∧ Number.le q1 median ∧
    Number.le median q3 ∧ Number.le q3 max.
Proof.
  apply computeBoxStats_non_decreasing; [discriminate|].
  repeat constructor.
Defined.

(** ** Arrays of references *)

Lemma Array_sort_cons {A} (comparefn : A → A → number) (x : A) (l : list A) :
  Array_sort comparefn (x :: l) = sort_insert comparefn x (Array_sort comparefn l).
Proof. reflexivity. Qed.

Lemma sort_insert_fmap {A B} (f : A → B) (comparefn : B → B → number)
    (x : A) (l : list A) :
  f <$> sort_insert (λ a b, comparefn (f a) (f b)) x l
  = sort_insert comparefn (f x) (f <$> l).
Proof.
  induction l as [|y l IH]; [done|].
  cbn [sort_insert]. rewrite fmap_cons. cbn [sort_insert].
  change (after (λ a b, comparefn (f a) (f b)) x y) with (after comparefn (f x) (f y)).
  destruct (after comparefn (f x) (f y)); rewrite ?fmap_cons; [by rewrite IH|done].
Qed.

Lemma Array_sort_fmap {A B} (f : A → B) (comparefn : B → B → number) (l : list A) :
  f <$> Array_sort (λ a b, comparefn (f a) (f b)) l = Array_sort comparefn (f <$> l).
Proof.
  induction l as [|x l IH]; [done|].
  rewrite fmap_cons, !Array_sort_cons, sort_insert_fmap. by rewrite IH.
Qed.

Lemma filter_fmap {A B} (f : A → B) (p : B → bool) (l : list A) :
  List.filter p (f <$> l) = f <$> List.filter (λ x, p (f x)) l.
Proof.
  induction l as [|x l IH]; simpl; [done|].
  destruct (p (f x)); simpl; [f_equal|]; exact IH.
Qed.

Lemma filter_ext_elem_of {A} (p q : A → bool) (l : list A) :
  (∀ x, x ∈ l → p x = q x) → List.filter p l = List.filter q l.
Proof.
  induction l as [|x l IH]; intros Hpq; simpl; [done|].
  rewrite (Hpq x) by left. rewrite IH; [done|].
  intros y Hy. apply Hpq. by right.
Qed.

Lemma Forall_of_sublist {A} (P : A → Prop) (l k : list A) :
  Forall P l → k `sublist_of` l → Forall P k.
Proof.
  intros Hl Hk. apply Forall_forall. intros x Hx.
  eapply Forall_forall in Hl; [exact Hl|]. by eapply elem_of_sublist.
Qed.

Lemma filter_sublist {A} (p : A → bool) (l : list A) : List.filter p l `sublist_of` l.
Proof.
  induction l as [|x l IH]; simpl; [done|].
  destruct (p x); by constructor.
Qed.

(** A filter whose predicate throws nowhere is the plain filter. *)
Lemma Array_filter_Some {A} (p : A → option bool) (l : list A) (q : A → bool) :
  Forall (λ x, p x = Some (q x)) l → Array_filter p l = Some (List.filter q l).
Proof.
  induction 1 as [|x l Hx _ IH]; simpl; [done|].
  rewrite Hx, IH. simpl. by destruct (q x).
Qed.

Lemma Array_slice_split {A} (l : list A) (start final : Z) :
  let k := Z.to_nat (relative_index (Z.of_nat (length l)) start) in
  let page := Array_slice l start final in
  l = take k l ++ page ++ drop (k + length page) l.
Proof.
  intros k page. unfold page, Array_slice. fold k.
  set (c := Z.to_nat _).
  rewrite <- (take_drop k l) at 1. f_equal.
  rewrite <- (take_drop c (drop k l)) at 1. f_equal.
  rewrite drop_drop, length_take, length_drop.
  destruct (decide (c ≤ length l - k)%nat) as [Hc|Hc]; [f_equal; lia|].
  rewrite !drop_ge; [done| |]; lia.
Qed.

Lemma Array_slice_fmap {A B} (f : A → B) (l : list A) (start final : Z) :
  f <$> Array_slice l start final = Array_slice (f <$> l) start final.
Proof.
  unfold Array_slice. by rewrite fmap_take, fmap_drop, length_fmap.
Qed.

(** ** The refresh cycle *)

Section CycleFacts.
Context `{Host}.

(** The references of [rawData] name the rows just pushed. *)
Lemma deref_rawData (h0 objs : list WorkloadGroupData) :
  deref (h0 ++ objs) <$> seq (length h0) (length objs) = objs.
Proof.
  apply list_eq. intros i. rewrite list_lookup_fmap.
  destruct (decide (i < length objs)%nat) as [Hi|Hi].
  - rewrite lookup_seq_lt by done. simpl.
    destruct (lookup_lt_is_Some_2 objs i Hi) as [x Hx]. rewrite Hx. f_equal.
    apply list_lookup_total_correct. rewrite lookup_app_r by lia.
    by replace (length h0 + i - length h0)%nat with i by lia.
  - rewrite lookup_seq_ge by lia. by rewrite lookup_ge_None_2 by lia.
Qed.

Lemma fetchBoxStats_length (http : Http) (h : Heap) (a : Ref) :
  length (fetchBoxStats http h a) = length h.
Proof.
  unfold fetchBoxStats. destruct (get_group_stats _ _); [|done].
  destruct (nodeUsages _ _). apply length_insert.
Qed.

Lemma deref_fetchBoxStats (http : Http) (h : Heap) (a r : Ref) :
  (a < length h)%nat →
  deref (fetchBoxStats http h a) r
  = if decide (r = a) then withBoxStats http (deref h a) else deref h r.
Proof.
  intros Ha. unfold fetchBoxStats, withBoxStats.
  destruct (get_group_stats _ _).
  - destruct (nodeUsages _ _). unfold deref at 1. case_decide as E.
    + subst r. by apply list_lookup_total_insert_eq.
    + by apply list_lookup_total_insert_ne.
  - case_decide; by subst.
Qed.

(** The detail loop over distinct references: a row of the page gets the
    result of its own round, every other row is untouched. *)
Lemma deref_detail_loop (http : Http) (l : list Ref) (h : Heap) (r : Ref) :
  NoDup l → Forall (λ a, a < length h)%nat l →
  deref (foldl (fetchBoxStats http) h l) r
  = if decide (r ∈ l) then withBoxStats http (deref h r) else deref h r.
Proof.
  intros Hnd. revert h. induction Hnd as [|a l Ha Hnd IH]; intros h Hl.
  - done.
  - apply Forall_cons in Hl as [Hah Hl]. simpl. rewrite IH.
    + rewrite !deref_fetchBoxStats by done.
      destruct (decide (r = a)) as [->|Hne].
      * rewrite decide_False by done. rewrite decide_True by left. done.
      * destruct (decide (r ∈ l)) as [Hr|Hr].
        -- rewrite decide_True by (by right). done.
        -- rewrite decide_False; [done|].
           intros [?|?]%elem_of_cons; done.
    + eapply Forall_impl; [exact Hl|]. intros x Hx. simpl in Hx.
      by rewrite fetchBoxStats_length.
Qed.

(** The detail round changes nothing but the two box-plot arrays. *)
Lemma withBoxStats_frame (http : Http) (g : WorkloadGroupData) :
  ∃ cpu' mem', withBoxStats http g = withStats g cpu' mem'.
Proof.
  unfold withBoxStats. destruct (get_group_stats _ _).
  - destruct (nodeUsages _ _). eauto.
  - exists (cpuStats g), (memStats g). by destruct g.
Qed.

Lemma exceedsLimits_withBoxStats (http : Http) (g : WorkloadGroupData) :
  exceedsLimits (withBoxStats http g) = exceedsLimits g.
Proof. by destruct (withBoxStats_frame http g) as (c & m & ->). Qed.

Lemma total_sumOf (f : WorkloadGroupData → number) (h' h : Heap) (l : list Ref) :
  (∀ r, r ∈ l → f (deref h' r) = f (deref h r)) →
  total f h' l = sumOf f (deref h <$> l).
Proof.
  unfold total, sumOf. generalize (of_Z 0).
  induction l as [|r l IH]; intros acc Hf; simpl; [done|].
  rewrite (Hf r) by left. apply IH. intros r' Hr'. apply Hf. by right.
Qed.

(** The search filter on references, when no name is [undefined]. *)
Lemma filteredRawData_spec (h0 fetched : list WorkloadGroupData) (query : string) :
  let h := h0 ++ fetched in
  let rawData := seq (length h0) (length fetched) in
  (truthy_string query = true → Forall (λ g, is_Some (name g)) fetched) →
  ∃ filteredRawData,
    (if truthy_string query
     then Array_filter (matchesSearch h query) rawData
     else Some rawData) = Some filteredRawData ∧
    deref h <$> filteredRawData = searchedRows query fetched ∧
    filteredRawData `sublist_of` rawData.
Proof.
  intros h rawData Hnames. unfold searchedRows.
  pose proof (deref_rawData h0 fetched) as Hraw. fold h rawData in Hraw.
  destruct (truthy_string query); [|by exists rawData].
  exists (List.filter (λ r, matchesName query (deref h r)) rawData).
  split; [|split].
  - apply Array_filter_Some.
    specialize (Hnames eq_refl). rewrite <- Hraw in Hnames.
    apply (proj1 (Forall_fmap _ _ _)) in Hnames. eapply Forall_impl; [exact Hnames|].
    intros r [n Hn]. simpl in Hn. unfold matchesSearch, matchesName. by rewrite Hn.
  - by rewrite <- filter_fmap, Hraw.
  - apply filter_sublist.
Qed.

(** What a cycle leaves in the state when the name map and the node's
    groups are fetched and no name needed by the search is [undefined]: the
    cycle reaches the end of its [try] block whatever the limits and detail
    requests answer. *)
Lemma fetchStatsForNode_try_spec (http : Http) (nodeId : string) (st : State)
    (fetched : list WorkloadGroupData) :
  fetchedRows http nodeId = Some fetched →
  (truthy_string (searchQuery st) = true → Forall (λ g, is_Some (name g)) fetched) →
  let shown := searchedRows (searchQuery st) fetched in
  let sorted := Array_sort (compareRows (sortField st) (sortDirection st)) shown in
  let k := Z.to_nat (relative_index (Z.of_nat (length sorted))
                                    (pageIndex st * pageSize st)) in
  let page := paginate sorted (pageIndex st) (pageSize st) in
  ∃ st',
    fetchStatsForNode_try http nodeId st = Some st' ∧
    dataRows st'
    = take k sorted ++ (withBoxStats http <$> page) ++ drop (k + length page) sorted ∧
    filteredData st' = data st' ∧
    summaryStats st'
    = Some {| totalGroups := of_nat (length shown);
              stat_totalCompletions := sumOf totalCompletions shown;
              stat_totalRejections := sumOf totalRejections shown;
              stat_totalCancellations := sumOf totalCancellations shown;
              groupsExceedingLimits := of_nat (length (List.filter exceedsLimits shown)) |} ∧
    searchQuery st' = searchQuery st ∧
    pageIndex st' = pageIndex st ∧ pageSize st' = pageSize st ∧
    sortField st' = sortField st ∧ sortDirection st' = sortDirection st ∧
    lastUpdated st' = Some (now http).
Proof.
  intros Hfetched Hnames shown sorted k page.
  unfold fetchedRows in Hfetched. unfold fetchStatsForNode_try.
  destruct (fetchWorkloadGroupNameMap http) as [idToName|]; [|done].
  destruct (fetchWorkloadGroupsForNode http nodeId) as [workloadGroups|]; [|done].
  simpl in Hfetched. injection Hfetched as Hfetched. simpl.
  rewrite <- (length_fmap (newRow idToName (fetchWorkloadGroupsWithLimits http))).
  rewrite Hfetched.
  destruct (filteredRawData_spec (heap st) fetched (searchQuery st) Hnames)
    as (fr & -> & Hshown & Hsub).
  fold shown in Hshown. simpl.
  set (h := heap st ++ fetched) in *.
  set (sortedR := sortData h fr (sortField st) (sortDirection st)).
  set (pageR := paginate sortedR (pageIndex st) (pageSize st)).
  set (h' := foldl (fetchBoxStats http) h pageR).
  (* the sorted references *)
  assert (sortedR ≡ₚ fr) as Hperm by apply Array_sort_Permutation.
  assert (deref h <$> sortedR = sorted) as HsortedV.
  { unfold sortedR, sortData. rewrite Array_sort_fmap. by rewrite Hshown. }
  assert (NoDup fr) as Hnd_fr
    by (eapply sublist_NoDup; [apply NoDup_seq|exact Hsub]).
  assert (Forall (λ a, a < length h)%nat fr) as Hin_fr.
  { apply Forall_forall. intros r Hr.
    eapply elem_of_sublist in Hr; [|exact Hsub].
    apply elem_of_seq in Hr. unfold h. rewrite length_app. lia. }
  assert (NoDup sortedR) as Hnd by by rewrite Hperm.
  assert (Forall (λ a, a < length h)%nat sortedR) as Hin by by rewrite Hperm.
  (* the page *)
  assert (length sortedR = length sorted) as Hlen
    by by rewrite <- HsortedV, length_fmap.
  assert (deref h <$> pageR = page) as HpageV.
  { unfold pageR, page, paginate. by rewrite Array_slice_fmap, HsortedV. }
  pose proof (Array_slice_split sortedR (pageIndex st * pageSize st)
                ((pageIndex st + 1) * pageSize st)) as Hsplit.
  simpl in Hsplit. rewrite Hlen in Hsplit. fold k in Hsplit.
  change (Array_slice sortedR _ _) with pageR in Hsplit.
  assert (length pageR = length page) as HlenP
    by by rewrite <- HpageV, length_fmap.
  assert (NoDup pageR ∧ Forall (λ a, a < length h)%nat pageR) as [HndP HinP].
  { rewrite Hsplit in Hnd, Hin.
    apply NoDup_app in Hnd as (_ & _ & Hnd). apply NoDup_app in Hnd as (Hnd & _ & _).
    apply Forall_app in Hin as [_ Hin]. by apply Forall_app in Hin as [Hin _]. }
  assert (∀ r, deref h' r
               = if decide (r ∈ pageR) then withBoxStats http (deref h r) else deref h r)
    as Hh' by (intros r; by apply deref_detail_loop).
  assert (∀ f : WorkloadGroupData → number,
            (∀ g, f (withBoxStats http g) = f g) →
            total f h' fr = sumOf f shown) as Htotal.
  { intros f Hf. rewrite <- Hshown. apply total_sumOf. intros r _.
    rewrite Hh'. by case_decide. }
  eexists. split; [reflexivity|]. simpl.
  split; [|split; [done|split; [|done]]].
  - unfold dataRows, rows. simpl. fold sortedR pageR h'.
    rewrite Hsplit at 1. rewrite !fmap_app.
    rewrite Hsplit in Hnd.
    apply NoDup_app in Hnd as (_ & Hpre & Hnd).
    apply NoDup_app in Hnd as (_ & Hpost & _).
    f_equal; [|f_equal].
    + rewrite <- HsortedV, <- fmap_take. apply Forall_fmap_ext, Forall_forall.
      intros r Hr. rewrite Hh'. rewrite decide_False; [done|].
      intros Hp. apply (Hpre r Hr). apply elem_of_app. by left.
    + rewrite <- HpageV, <- list_fmap_compose. apply Forall_fmap_ext, Forall_forall.
      intros r Hr. simpl. rewrite Hh'. by rewrite decide_True.
    + rewrite <- HsortedV, <- fmap_drop, <- HlenP. apply Forall_fmap_ext, Forall_forall.
      intros r Hr. rewrite Hh'. rewrite decide_False; [done|].
      intros Hp. by apply (Hpost r Hp).
  - f_equal. f_equal.
    + f_equal. by rewrite Hperm, <- Hshown, length_fmap.
    + apply Htotal. intros g. by destruct (withBoxStats_frame http g) as (c & m & ->).
    + apply Htotal. intros g. by destruct (withBoxStats_frame http g) as (c & m & ->).
    + apply Htotal. intros g. by destruct (withBoxStats_frame http g) as (c & m & ->).
    + f_equal. rewrite <- Hshown, filter_fmap, length_fmap. f_equal.
      apply filter_ext_elem_of. intros r _. rewrite Hh'.
      case_decide; [apply exceedsLimits_withBoxStats|done].
Qed.

End CycleFacts.

Section CycleResults.
Context `{Host}.

(** [fetchStatsForNode] itself: the result of the [try] block with
    [loading] reset. *)
Lemma fetchStatsForNode_spec (http : Http) (nodeId : string) (st : State)
    (fetched : list WorkloadGroupData) :
  fetchedRows http nodeId = Some fetched →
  (truthy_string (searchQuery st) = true → Forall (λ g, is_Some (name g)) fetched) →
  let st' := fetchStatsForNode http nodeId st in
  let shown := searchedRows (searchQuery st) fetched in
  let sorted := Array_sort (compareRows (sortField st) (sortDirection st)) shown in
  let k := Z.to_nat (relative_index (Z.of_nat (length sorted))
                                    (pageIndex st * pageSize st)) in
  let page := paginate sorted (pageIndex st) (pageSize st) in
  dataRows st'
  = take k sorted ++ (withBoxStats http <$> page) ++ drop (k + length page) sorted ∧
  summaryStats st'
  = Some {| totalGroups := of_nat (length shown);
            stat_totalCompletions := sumOf totalCompletions shown;
            stat_totalRejections := sumOf totalRejections shown;
            stat_totalCancellations := sumOf totalCancellations shown;
            groupsExceedingLimits := of_nat (length (List.filter exceedsLimits shown)) |} ∧
  lastUpdated st' = Some (now http) ∧
  loading st' = false.
Proof.
  intros Hfetched Hnames st'.
  destruct (fetchStatsForNode_try_spec http nodeId (setLoading true st) fetched
              Hfetched Hnames)
    as (st1 & Htry & Hrows & _ & Hsummary & _ & _ & _ & _ & _ & Hnow).
  subst st'. unfold fetchStatsForNode. rewrite Htry. simpl.
  simpl in Hrows, Hsummary. by rewrite <- Hrows, <- Hsummary, <- Hnow.
Qed.

(** The rows pushed on [rawData] start with empty box-plot arrays. *)
Lemma fetchedRows_no_stats (http : Http) (nodeId : string)
    (fetched : list WorkloadGroupData) :
  fetchedRows http nodeId = Some fetched →
  Forall (λ g, cpuStats g = [] ∧ memStats g = []) fetched.
Proof.
  unfold fetchedRows. intros Hf.
  destruct (fetchWorkloadGroupNameMap http); [|done].
  destruct (fetchWorkloadGroupsForNode http nodeId); [|done].
  simpl in Hf. injection Hf as <-.
  apply Forall_fmap, Forall_forall. by intros [id stats] _.
Qed.

Lemma searchedRows_sublist (query : string) (fetched : list WorkloadGroupData) :
  searchedRows query fetched `sublist_of` fetched.
Proof.
  unfold searchedRows. destruct (truthy_string query); [apply filter_sublist|done].
Qed.

Lemma searchedRows_no_stats (http : Http) (nodeId query : string)
    (field : SortField) (direction : SortDirection)
    (fetched : list WorkloadGroupData) :
  fetchedRows http nodeId = Some fetched →
  Forall (λ g, cpuStats g = [] ∧ memStats g = [])
         (Array_sort (compareRows field direction) (searchedRows query fetched)).
Proof.
  intros Hf. rewrite Array_sort_Permutation.
  apply Forall_forall. intros g Hg.
  eapply elem_of_sublist in Hg; [|apply searchedRows_sublist].
  revert g Hg. apply Forall_forall. by eapply fetchedRows_no_stats.
Qed.

Lemma withStats_id (g : WorkloadGroupData) :
  cpuStats g = [] ∧ memStats g = [] → withStats g [] [] = g.
Proof. destruct g; simpl. by intros [-> ->]. Qed.

Lemma withStats_withBoxStats (http : Http) (g : WorkloadGroupData) :
  withStats (withBoxStats http g) [] [] = withStats g [] [].
Proof. by destruct (withBoxStats_frame http g) as (c & m & ->). Qed.

Lemma groupId_withBoxStats (http : Http) (g : WorkloadGroupData) :
  groupId (withBoxStats http g) = groupId g.
Proof. by destruct (withBoxStats_frame http g) as (c & m & ->). Qed.

Lemma Array_slice_sublist {A} (l : list A) (start final : Z) :
  Array_slice l start final `sublist_of` l.
Proof.
  unfold Array_slice. etrans; [apply sublist_take|apply sublist_drop].
Qed.

End CycleResults.

(** ** Summary statistics *)

(** C1, as the code has it: the three total counters are sums over the
    search-filtered rows, the very set whose size is [totalGroups]; with an
    empty search text this is the whole row set as fetched. *)
Theorem summary_totals_over_searched_rows `{Host} (http : Http) (nodeId : string)
    (st : State) (fetched : list WorkloadGroupData) :
  fetchedRows http nodeId = Some fetched →
  (truthy_string (searchQuery st) = true → Forall (λ g, is_Some (name g)) fetched) →
  ∃ s, summaryStats (fetchStatsForNode http nodeId st) = Some s ∧
    let shown := searchedRows (searchQuery st) fetched in
    totalGroups s = of_nat (length shown) ∧
    stat_totalCompletions s = sumOf totalCompletions shown ∧
    stat_totalRejections s = sumOf totalRejections shown ∧
    stat_totalCancellations s = sumOf totalCancellations shown ∧
    (searchQuery st = "" → shown = fetched).
Proof.
  intros Hfetched Hnames.
  destruct (fetchStatsForNode_spec http nodeId st fetched Hfetched Hnames)
    as (_ & Hsummary & _).
  eexists. split; [exact Hsummary|]. simpl.
  repeat split. intros Hq. unfold searchedRows. by rewrite Hq.
Qed.

Lemma summary_totals_over_searched_rows_witness :
  ∃ s, summaryStats
         (fetchStatsForNode example_http "n1" (setSearchQuery "alp" initialState))
       = Some s ∧
    totalGroups s = of_Z 1 ∧
    stat_totalCompletions s = of_Z 1 ∧
    stat_totalRejections s = of_Z 2 ∧
    stat_totalCancellations s = of_Z 3.
Proof.
  destruct (summary_totals_over_searched_rows example_http "n1"
              (setSearchQuery "alp" initialState)
              (newRow {[ "a" := "Alpha"; "b" := "Beta"; "c" := "Gamma" ]}
                      (fetchWorkloadGroupsWithLimits example_http)
                 <$> example_node_groups))
    as (s & Hs & Hg & Hc & Hr & Hx & _).
  - reflexivity.
  - intros _. repeat constructor; by eexists.
  - exists s. split; [exact Hs|].
    rewrite Hg, Hc, Hr, Hx. repeat split; vm_compute; reflexivity.
Defined.

(** C1 as stated fails: with the search text ["alp"] only group Alpha is
    summed, so the total of completions is 1 while the rows as fetched sum
    to 111. *)
Lemma totals_follow_search_text :
  fmap (M:=list) totalCompletions <$> fetchedRows example_http "n1"
  = Some [of_Z 1; of_Z 10; of_Z 100] ∧
  ∃ s s',
    summaryStats (fetchStatsForNode example_http "n1" initialState) = Some s ∧
    summaryStats
      (fetchStatsForNode example_http "n1" (setSearchQuery "alp" initialState))
    = Some s' ∧
    stat_totalCompletions s = of_Z 111 ∧
    stat_totalCompletions s' = of_Z 1 ∧
    stat_totalCompletions s' ≠ stat_totalCompletions s.
Proof.
  split; [vm_compute; reflexivity|].
  eexists _, _. repeat split; try (vm_compute; reflexivity).
  vm_compute. discriminate.
Qed.

(** ** Failure of a detail request *)

(** C2, as the code has it: whatever the detail requests answer, the cycle
    runs to its end and every row of the cycle that the search text keeps,
    which is every row as fetched when the search text is empty, is in the
    final output; a row whose detail request failed keeps the empty box-plot
    arrays it was created with, it is not given the NaN-filled sentinel. *)
Theorem detail_failure_keeps_rows `{Host} (http : Http) (nodeId : string)
    (st : State) (fetched : list WorkloadGroupData) :
  fetchedRows http nodeId = Some fetched →
  (truthy_string (searchQuery st) = true → Forall (λ g, is_Some (name g)) fetched) →
  let st' := fetchStatsForNode http nodeId st in
  lastUpdated st' = Some (now http) ∧
  (λ g, withStats g [] []) <$> dataRows st' ≡ₚ searchedRows (searchQuery st) fetched ∧
  (searchQuery st = "" → searchedRows (searchQuery st) fetched = fetched) ∧
  ∀ g, g ∈ dataRows st' → get_group_stats http (groupId g) = None →
       cpuStats g = [] ∧ memStats g = [].
Proof.
  intros Hfetched Hnames st'.
  destruct (fetchStatsForNode_spec http nodeId st fetched Hfetched Hnames)
    as (Hrows & _ & Hnow & _).
  fold st' in Hrows, Hnow.
  pose proof (searchedRows_no_stats http nodeId (searchQuery st) (sortField st)
                (sortDirection st) fetched Hfetched) as Hempty.
  set (sorted := Array_sort _ _) in *.
  set (page := paginate sorted _ _) in *.
  assert (page `sublist_of` sorted) as Hpage by apply Array_slice_sublist.
  split; [done|]. rewrite Hrows.
  split; [|split; [intros Hq; unfold searchedRows; by rewrite Hq|]].
  - pose proof (Array_slice_split sorted (pageIndex st * pageSize st)
                  ((pageIndex st + 1) * pageSize st)) as Hsplit.
    simpl in Hsplit. fold (paginate sorted (pageIndex st) (pageSize st)) in Hsplit.
    fold page in Hsplit.
    trans sorted; [|apply Array_sort_Permutation].
    apply reflexive_eq. etrans; [|symmetry; exact Hsplit].
    rewrite !fmap_app, <- list_fmap_compose. f_equal; [|f_equal].
    + rewrite <- (list_fmap_id (take _ sorted)) at 2.
      apply Forall_fmap_ext, Forall_forall. intros g Hg.
      apply withStats_id. eapply Forall_forall in Hempty; [exact Hempty|].
      eapply elem_of_sublist; [exact Hg|apply sublist_take].
    + rewrite <- (list_fmap_id page) at 2.
      apply Forall_fmap_ext, Forall_forall. intros g Hg. simpl.
      rewrite withStats_withBoxStats. apply withStats_id.
      eapply Forall_forall in Hempty; [exact Hempty|].
      by eapply elem_of_sublist.
    + rewrite <- (list_fmap_id (drop _ sorted)) at 2.
      apply Forall_fmap_ext, Forall_forall. intros g Hg.
      apply withStats_id. eapply Forall_forall in Hempty; [exact Hempty|].
      eapply elem_of_sublist; [exact Hg|apply sublist_drop].
  - intros g Hg Hfail.
    apply elem_of_app in Hg as [Hg|Hg]; [|apply elem_of_app in Hg as [Hg|Hg]].
    + eapply Forall_forall in Hempty; [exact Hempty|].
      eapply elem_of_sublist; [exact Hg|apply sublist_take].
    + apply list_elem_of_fmap in Hg as (g0 & -> & Hg0).
      rewrite groupId_withBoxStats in Hfail.
      unfold withBoxStats. rewrite Hfail.
      eapply Forall_forall in Hempty; [exact Hempty|].
      by eapply elem_of_sublist.
    + eapply Forall_forall in Hempty; [exact Hempty|].
      eapply elem_of_sublist; [exact Hg|apply sublist_drop].
Qed.

Lemma detail_failure_keeps_rows_witness :
  let st' := fetchStatsForNode example_http "n1" initialState in
  groupId <$> dataRows st' = ["a"; "b"; "c"] ∧
  lastUpdated st' = Some (now example_http) ∧
  ∀ g, g ∈ dataRows st' → get_group_stats example_http (groupId g) = None →
       cpuStats g = [] ∧ memStats g = [].
Proof.
  intros st'.
  destruct (detail_failure_keeps_rows example_http "n1" initialState
              (newRow {[ "a" := "Alpha"; "b" := "Beta"; "c" := "Gamma" ]}
                      (fetchWorkloadGroupsWithLimits example_http)
                 <$> example_node_groups))
    as (Hnow & _ & _ & Hfail).
  - reflexivity.
  - discriminate.
  - split; [vm_compute; reflexivity|]. split; [exact Hnow|exact Hfail].
Defined.

(** C2 as stated fails: of three rows the detail request of the second is
    rejected; all three rows are in the output, and the second holds empty
    box-plot arrays, not five NaN.  With the search text ["bet"] the same
    three rows are fetched and the one detail request of the cycle, for the
    second row, is rejected: the output holds that row only. *)
Lemma failed_detail_leaves_empty_stats :
  let out := dataRows (fetchStatsForNode example_http "n1" initialState) in
  let searched :=
    dataRows (fetchStatsForNode example_http "n1" (setSearchQuery "bet" initialState)) in
  (groupId <$> out = ["a"; "b"; "c"] ∧
   ∃ g, out !! 1%nat = Some g ∧
     get_group_stats example_http (groupId g) = None ∧
     cpuStats g = [] ∧ memStats g = [] ∧
     cpuStats g ≠ [NaN; NaN; NaN; NaN; NaN] ∧
     memStats g ≠ [NaN; NaN; NaN; NaN; NaN]) ∧
  fmap (M:=list) groupId <$> fetchedRows example_http "n1" = Some ["a"; "b"; "c"] ∧
  groupId <$> searched = ["b"] ∧
  get_group_stats example_http "b" = None.
Proof.
  split; [|repeat split; vm_compute; reflexivity].
  split; [vm_compute; reflexivity|].
  eexists. split; [vm_compute; reflexivity|].
  repeat split; try (vm_compute; reflexivity); vm_compute; discriminate.
Qed.

(** ** Groups exceeding their limits *)

Lemma exceedsLimits_unset (g : WorkloadGroupData) :
  cpuLimit g = NaN → memLimit g = NaN → exceedsLimits g = false.
Proof.
  intros Hc Hm. unfold exceedsLimits. by rewrite Hc, Hm, !gt_NaN_r.
Qed.

Lemma exceedsLimits_hasLimit (g : WorkloadGroupData) :
  exceedsLimits g = true → hasLimit g = true.
Proof.
  unfold hasLimit. intros He.
  destruct (cpuLimit g) eqn:Hc; try done.
  destruct (memLimit g) eqn:Hm; try done.
  by rewrite exceedsLimits_unset in He.
Qed.

Lemma filter_filter_implied {A} (p q : A → bool) (l : list A) :
  (∀ x, p x = true → q x = true) →
  List.filter p (List.filter q l) = List.filter p l.
Proof.
  intros Hpq. induction l as [|x l IH]; simpl; [done|].
  destruct (q x) eqn:Hq; simpl.
  - by rewrite IH.
  - destruct (p x) eqn:Hp; [|done]. apply Hpq in Hp. congruence.
Qed.

(** C5: a row whose [cpuLimit] and [memLimit] are both the NaN sentinel never
    exceeds its limits, whatever its usage, because a comparison with NaN is
    false; so [groupsExceedingLimits] of a cycle counts only rows that have a
    limit set. *)
Theorem unset_limits_never_counted `{Host} (http : Http) (nodeId : string)
    (st : State) (fetched : list WorkloadGroupData) :
  fetchedRows http nodeId = Some fetched →
  (truthy_string (searchQuery st) = true → Forall (λ g, is_Some (name g)) fetched) →
  (∀ g, cpuLimit g = NaN → memLimit g = NaN →
        hasLimit g = false ∧ exceedsLimits g = false) ∧
  ∃ s, summaryStats (fetchStatsForNode http nodeId st) = Some s ∧
    groupsExceedingLimits s
    = of_nat (length (List.filter exceedsLimits
                        (List.filter hasLimit (searchedRows (searchQuery st) fetched)))).
Proof.
  intros Hfetched Hnames. split.
  - intros g Hc Hm. split; [|by apply exceedsLimits_unset].
    unfold hasLimit. by rewrite Hc, Hm.
  - destruct (fetchStatsForNode_spec http nodeId st fetched Hfetched Hnames)
      as (_ & Hsummary & _).
    eexists. split; [exact Hsummary|]. simpl.
    by rewrite (filter_filter_implied _ _ _ exceedsLimits_hasLimit).
Qed.

Lemma unset_limits_never_counted_witness :
  let rows := newRow {[ "a" := "Alpha"; "b" := "Beta"; "c" := "Gamma" ]}
                     (fetchWorkloadGroupsWithLimits example_http)
                <$> example_node_groups in
  fetchedRows example_http "n1" = Some rows ∧
  hasLimit <$> rows = [true; true; false] ∧
  (λ g, memoryUsage g >? of_Z 100)%num <$> rows = [false; false; true] ∧
  exceedsLimits <$> rows = [true; false; false] ∧
  ∃ s, summaryStats (fetchStatsForNode example_http "n1" initialState) = Some s ∧
    groupsExceedingLimits s = of_Z 1.
Proof.
  intros rows.
  destruct (unset_limits_never_counted example_http "n1" initialState rows)
    as (_ & s & Hs & Hcount).
  - reflexivity.
  - discriminate.
  - split; [reflexivity|]. do 3 (split; [vm_compute; reflexivity|]).
    exists s. split; [exact Hs|]. rewrite Hcount. vm_compute. reflexivity.
Defined.

(** ** Limits *)

Lemma newRow_groupId (idToName : gmap string string)
    (limits : gmap string Limits) (entry : string * GroupStats) :
  groupId (newRow idToName limits entry) = entry.1.
Proof. by destruct entry. Qed.

(** The destructuring defaults: a group with no entry in the limits map gets
    100 for both limits. *)
Lemma newRow_default_limits (idToName : gmap string string)
    (limits : gmap string Limits) (entry : string * GroupStats) :
  limits !! entry.1 = None →
  cpuLimit (newRow idToName limits entry) = of_Z 100 ∧
  memLimit (newRow idToName limits entry) = of_Z 100.
Proof. destruct entry as [id stats]. simpl. by intros ->. Qed.

Lemma newRow_limits (idToName : gmap string string)
    (limits : gmap string Limits) (entry : string * GroupStats) (l : Limits) :
  limits !! entry.1 = Some l →
  cpuLimit (newRow idToName limits entry) = limits_cpuLimit l ∧
  memLimit (newRow idToName limits entry) = limits_memLimit l.
Proof. destruct entry as [id stats]. simpl. by intros ->. Qed.

Lemma fetchedRows_newRow (http : Http) (nodeId : string)
    (fetched : list WorkloadGroupData) :
  fetchedRows http nodeId = Some fetched →
  ∃ idToName,
    Forall (λ g, ∃ entry, g = newRow idToName (fetchWorkloadGroupsWithLimits http) entry)
           fetched.
Proof.
  unfold fetchedRows. intros Hf.
  destruct (fetchWorkloadGroupNameMap http) as [idToName|]; [|done].
  destruct (fetchWorkloadGroupsForNode http nodeId); [|done].
  simpl in Hf. injection Hf as <-. exists idToName.
  apply Forall_fmap, Forall_forall. intros entry _. by exists entry.
Qed.

(** C10, as the code has it: a group with no entry in the limits map gets
    [cpuLimit = memLimit = 100], not the NaN sentinel, and so exceeds its
    limits exactly when its CPU or memory usage is above 100;
    [groupsExceedingLimits] counts the rows that exceed their limits among
    the rows the search text keeps, which are all the rows as fetched when
    the search text is empty.  A rejected request for the limits is swallowed
    and gives the empty map: then every row has both limits at 100 and
    [groupsExceedingLimits] counts the rows kept by the search text whose
    usage is above 100. *)
Theorem missing_limits_default_to_100 `{Host} (http : Http) (nodeId : string)
    (st : State) (fetched : list WorkloadGroupData) :
  fetchedRows http nodeId = Some fetched →
  (truthy_string (searchQuery st) = true → Forall (λ g, is_Some (name g)) fetched) →
  let shown := searchedRows (searchQuery st) fetched in
  Forall (λ g, fetchWorkloadGroupsWithLimits http !! groupId g = None →
               cpuLimit g = of_Z 100 ∧ memLimit g = of_Z 100 ∧
               exceedsLimits g = above100 g) fetched ∧
  ∃ s, summaryStats (fetchStatsForNode http nodeId st) = Some s ∧
    groupsExceedingLimits s = of_nat (length (List.filter exceedsLimits shown)) ∧
    (searchQuery st = "" → shown = fetched) ∧
    (get_workload_group_for_limits http = None →
     fetchWorkloadGroupsWithLimits http = ∅ ∧
     Forall (λ g, cpuLimit g = of_Z 100 ∧ memLimit g = of_Z 100) fetched ∧
     groupsExceedingLimits s = of_nat (length (List.filter above100 shown))).
Proof.
  intros Hfetched Hnames shown.
  destruct (fetchedRows_newRow http nodeId fetched Hfetched) as (idToName & Hrows).
  assert (Forall (λ g, fetchWorkloadGroupsWithLimits http !! groupId g = None →
                       cpuLimit g = of_Z 100 ∧ memLimit g = of_Z 100 ∧
                       exceedsLimits g = above100 g) fetched) as Hdefault.
  { eapply Forall_impl; [exact Hrows|]. intros g [entry ->] Hnone.
    rewrite newRow_groupId in Hnone.
    destruct (newRow_default_limits idToName _ entry Hnone) as [Hc Hm].
    unfold exceedsLimits, above100. by rewrite Hc, Hm. }
  split; [exact Hdefault|].
  destruct (fetchStatsForNode_spec http nodeId st fetched Hfetched Hnames)
    as (_ & Hsummary & _).
  eexists. split; [exact Hsummary|]. simpl. fold shown.
  split; [done|]. split.
  { intros Hq. unfold shown, searchedRows. by rewrite Hq. }
  intros Hfail.
  assert (fetchWorkloadGroupsWithLimits http = ∅) as Hempty
    by (unfold fetchWorkloadGroupsWithLimits; by rewrite Hfail).
  assert (Forall (λ g, cpuLimit g = of_Z 100 ∧ memLimit g = of_Z 100 ∧
                       exceedsLimits g = above100 g) fetched) as Hall.
  { eapply Forall_impl; [exact Hdefault|]. intros g Hg. apply Hg.
    by rewrite Hempty, lookup_empty. }
  split; [exact Hempty|]. split.
  - eapply Forall_impl; [exact Hall|]. by intros g (? & ? & _).
  - do 2 f_equal.
    apply filter_ext_elem_of. intros g Hg.
    eapply elem_of_sublist in Hg; [|apply searchedRows_sublist].
    eapply Forall_forall in Hall; [|exact Hg]. by destruct Hall as (_ & _ & ->).
Qed.

Lemma missing_limits_default_to_100_witness :
  let rows := newRow {[ "a" := "Alpha"; "b" := "Beta"; "c" := "Gamma" ]} ∅
                <$> [ ("a", example_stats 1 2 3 0.6 0.3);
                      ("b", example_stats 10 20 30 1.6 0.1);
                      ("c", example_stats 100 200 300 0.2 4.0) ] in
  fetchedRows example_http_no_limits "n1" = Some rows ∧
  cpuUsage <$> rows = [of_Z 60; of_Z 160; of_Z 20] ∧
  Forall (λ g, cpuLimit g = of_Z 100 ∧ memLimit g = of_Z 100) rows ∧
  ∃ s, summaryStats (fetchStatsForNode example_http_no_limits "n1" initialState)
       = Some s ∧
    groupsExceedingLimits s = of_Z 2.
Proof.
  intros rows.
  destruct (missing_limits_default_to_100 example_http_no_limits "n1"
              initialState rows) as (_ & s & Hs & _ & _ & Hfail).
  - reflexivity.
  - discriminate.
  - destruct (Hfail eq_refl) as (_ & Hall & Hcount).
    split; [reflexivity|]. split; [vm_compute; reflexivity|].
    split; [exact Hall|].
    exists s. split; [exact Hs|]. rewrite Hcount. vm_compute. reflexivity.
Defined.

(** C10 as stated fails: the request for the limits is rejected, so groups
    [b] (160 % CPU) and [c] (400 % memory) have both limits at 100 and a
    usage above 100; with the search text ["alp"] neither is counted, and
    [groupsExceedingLimits] is 0. *)
Lemma unmatched_rows_over_100_not_counted :
  let st := setSearchQuery "alp" initialState in
  fetchWorkloadGroupsWithLimits example_http_no_limits = ∅ ∧
  (∃ rows, fetchedRows example_http_no_limits "n1" = Some rows ∧
     groupId <$> rows = ["a"; "b"; "c"] ∧
     cpuUsage <$> rows = [of_Z 60; of_Z 160; of_Z 20] ∧
     memoryUsage <$> rows = [of_Z 30; of_Z 10; of_Z 400] ∧
     Forall (λ g, cpuLimit g = of_Z 100 ∧ memLimit g = of_Z 100) rows ∧
     above100 <$> rows = [false; true; true] ∧
     exceedsLimits <$> rows = [false; true; true]) ∧
  ∃ s, summaryStats (fetchStatsForNode example_http_no_limits "n1" st) = Some s ∧
    groupsExceedingLimits s = of_Z 0.
Proof.
  split; [vm_compute; reflexivity|]. split.
  - eexists. split; [vm_compute; reflexivity|].
    repeat split; try (vm_compute; reflexivity).
    repeat constructor.
  - eexists. split; vm_compute; reflexivity.
Qed.

Lemma toLimit_zero (q : Q) : (q == 0)%Q → toLimit (Some (Fin q)) = NaN.
Proof.
  intros Hq. unfold toLimit, Number.truthy.
  by rewrite (proj2 (Qeq_bool_iff q 0) Hq).
Qed.

(** The entry of a group in the limits map is that of the last group of the
    response with its id. *)
Lemma limits_lookup_last (f : WorkloadGroup → Limits)
    (m : gmap string Limits) (pre post : list WorkloadGroup) (group : WorkloadGroup) :
  Forall (λ g, _id g ≠ _id group) post →
  foldl (λ acc g, <[_id g := f g]> acc) m (pre ++ group :: post) !! _id group
  = Some (f group).
Proof.
  intros Hpost. rewrite foldl_app. simpl.
  generalize (foldl (λ acc g, <[_id g := f g]> acc) m pre). intros m'.
  assert (<[_id group := f group]> m' !! _id group = Some (f group)) as Hm
    by apply lookup_insert_eq.
  revert Hm. generalize (<[_id group := f group]> m'). clear m'.
  induction Hpost as [|g post Hg _ IH]; intros m' Hm; simpl; [done|].
  apply IH. by rewrite lookup_insert_ne.
Qed.

(** C9: for a group whose [resource_limits] hold a [cpu] (respectively
    [memory]) value equal to 0, the limit derived for the group is the NaN
    sentinel, because the conversion tests the value for truthiness; it is the
    limit derived when the value is absent, so a limit of exactly 0 cannot be
    told from no limit.  The row of the group gets this limit. *)
Theorem zero_limit_reads_as_unset (http : Http)
    (pre post : list WorkloadGroup) (group : WorkloadGroup) (rl : ResourceLimits) :
  get_workload_group_for_limits http = Some (Some (pre ++ group :: post)) →
  Forall (λ g, _id g ≠ _id group) post →
  resource_limits group = Some rl →
  ∃ l, fetchWorkloadGroupsWithLimits http !! _id group = Some l ∧
    (∀ q, limits_cpu rl = Some (Fin q) → (q == 0)%Q →
       limits_cpuLimit l = NaN ∧
       limits_cpuLimit l = toLimit None ∧
       ∀ idToName stats,
         cpuLimit (newRow idToName (fetchWorkloadGroupsWithLimits http)
                          (_id group, stats)) = NaN) ∧
    (∀ q, limits_memory rl = Some (Fin q) → (q == 0)%Q →
       limits_memLimit l = NaN ∧
       limits_memLimit l = toLimit None ∧
       ∀ idToName stats,
         memLimit (newRow idToName (fetchWorkloadGroupsWithLimits http)
                          (_id group, stats)) = NaN).
Proof.
  intros Hres Hpost Hrl.
  assert (fetchWorkloadGroupsWithLimits http !! _id group = Some (groupLimits group))
    as Hl.
  { unfold fetchWorkloadGroupsWithLimits. rewrite Hres. simpl.
    by apply limits_lookup_last. }
  assert (∀ q, limits_cpu rl = Some (Fin q) → (q == 0)%Q →
               limits_cpuLimit (groupLimits group) = NaN) as Hcpu.
  { intros q Hq Hz. unfold groupLimits. rewrite Hrl. simpl.
    rewrite Hq. by apply toLimit_zero. }
  assert (∀ q, limits_memory rl = Some (Fin q) → (q == 0)%Q →
               limits_memLimit (groupLimits group) = NaN) as Hmem.
  { intros q Hq Hz. unfold groupLimits. rewrite Hrl. simpl.
    rewrite Hq. by apply toLimit_zero. }
  exists (groupLimits group). split; [exact Hl|]. split.
  - intros q Hq Hz. rewrite (Hcpu q Hq Hz). repeat split.
    intros idToName stats.
    destruct (newRow_limits idToName _ (_id group, stats) _ Hl) as [-> _].
    by apply (Hcpu q).
  - intros q Hq Hz. rewrite (Hmem q Hq Hz). repeat split.
    intros idToName stats.
    destruct (newRow_limits idToName _ (_id group, stats) _ Hl) as [_ ->].
    by apply (Hmem q).
Qed.

Lemma zero_limit_reads_as_unset_witness :
  ∃ l, fetchWorkloadGroupsWithLimits example_http !! "a" = Some l ∧
    limits_cpuLimit l = of_Z 50 ∧
    limits_memLimit l = NaN ∧
    ∀ idToName stats,
      memLimit (newRow idToName (fetchWorkloadGroupsWithLimits example_http)
                       ("a", stats)) = NaN.
Proof.
  destruct (zero_limit_reads_as_unset example_http []
              [ {| _id := "b"; group_name := "Beta";
                   resource_limits := Some {| limits_cpu := Some (Fin 0.5);
                                              limits_memory := Some (Fin 0.8) |} |};
                {| _id := "c"; group_name := "Gamma"; resource_limits := None |} ]
              {| _id := "a"; group_name := "Alpha";
                 resource_limits := Some {| limits_cpu := Some (Fin 0.5);
                                            limits_memory := Some (Fin 0) |} |}
              {| limits_cpu := Some (Fin 0.5); limits_memory := Some (Fin 0) |})
    as (l & Hl & _ & Hmem).
  - reflexivity.
  - repeat constructor; discriminate.
  - reflexivity.
  - destruct (Hmem 0%Q eq_refl (Qeq_refl 0)) as (Hnan & _ & Hrow).
    exists l. split; [exact Hl|]. split; [|split; [exact Hnan|exact Hrow]].
    vm_compute in Hl. injection Hl as <-. vm_compute. reflexivity.
Defined.

(** ** Pages *)

Lemma take_min_length {A} (l : list A) (n m : nat) :
  (n `min` length l = m `min` length l)%nat → take n l = take m l.
Proof.
  intros Hnm.
  rewrite <- (take_ge l (length l)) at 1 2 by done.
  by rewrite !take_take, Hnm.
Qed.

Lemma tableItems_paginate (st : State) :
  tableItems st = paginate (rows (heap st) (filteredData st)) (pageIndex st) (pageSize st).
Proof. unfold tableItems, rows, paginate. apply Array_slice_fmap. Qed.

Lemma paginate_take_drop {A} (rows : list A) (pageIndex pageSize : Z) :
  0 ≤ pageIndex → 0 ≤ pageSize →
  paginate rows pageIndex pageSize
  = take (Z.to_nat pageSize) (drop (Z.to_nat (pageIndex * pageSize)) rows).
Proof.
  intros Hi Hs. unfold paginate, Array_slice, relative_index.
  assert (0 ≤ pageIndex * pageSize) as Hstart by nia.
  assert ((pageIndex + 1) * pageSize = pageIndex * pageSize + pageSize) as -> by lia.
  set (start := pageIndex * pageSize) in *.
  set (len := Z.of_nat (length rows)).
  destruct (start <? 0) eqn:E1; [lia|].
  destruct (start + pageSize <? 0) eqn:E2; [lia|].
  destruct (decide (start ≤ len)) as [Hle|Hgt].
  - rewrite (Z.min_l start len) by done.
    apply take_min_length. rewrite length_drop. lia.
  - rewrite (Z.min_r start len) by lia.
    rewrite !drop_ge by lia. by rewrite !take_nil.
Qed.

(** C7: for a zero-based [pageIndex] and a [pageSize], [paginate] returns
    exactly the elements at the positions [pageIndex * pageSize] up to, not
    including, [(pageIndex + 1) * pageSize]; a page that starts at or past
    the end of the sequence is empty, as page 5 of size 10 of three
    elements. *)
Theorem paginate_page_slice {A} (rows : list A) (pageIndex pageSize : Z) :
  0 ≤ pageIndex → 0 ≤ pageSize →
  let start := Z.to_nat (pageIndex * pageSize) in
  let final := Z.to_nat ((pageIndex + 1) * pageSize) in
  (∀ i : nat, paginate rows pageIndex pageSize !! i
              = if decide (start + i < final)%nat then rows !! (start + i)%nat else None) ∧
  length (paginate rows pageIndex pageSize)
  = (final `min` length rows - start)%nat ∧
  ((length rows ≤ start)%nat → paginate rows pageIndex pageSize = []) ∧
  ∀ a b c : A, paginate [a; b; c] 5 10 = [].
Proof.
  intros Hi Hs start final.
  assert (final = start + Z.to_nat pageSize)%nat as Hfinal by (subst start final; nia).
  rewrite paginate_take_drop by done. fold start.
  split; [|split; [|split]].
  - intros i. case_decide.
    + rewrite lookup_take_lt by lia. apply lookup_drop.
    + apply lookup_take_ge. lia.
  - rewrite length_take, length_drop. lia.
  - intros Hlen. rewrite drop_ge by done. apply take_nil.
  - done.
Qed.

Lemma paginate_page_slice_witness :
  paginate ["p"; "q"; "r"; "s"; "t"] 1 2 = ["r"; "s"] ∧
  paginate ["p"; "q"; "r"; "s"; "t"] 2 2 = ["t"] ∧
  paginate ["p"; "q"; "r"] 5 10 = [] ∧
  ∀ i : nat, paginate ["p"; "q"; "r"; "s"; "t"] 1 2 !! i
             = if decide (2 + i < 4)%nat then ["p"; "q"; "r"; "s"; "t"] !! (2 + i)%nat
               else None.
Proof.
  split; [vm_compute; reflexivity|]. split; [vm_compute; reflexivity|].
  destruct (paginate_page_slice ["p"; "q"; "r"; "s"; "t"] 1 2) as (Hlookup & _ & _ & Hex);
    [lia|lia|].
  split; [apply Hex|exact Hlookup].
Defined.

(** ** Polling *)

Lemma poller_inv_mount : poller_inv mount.
Proof. exists 0%nat, POLL_INTERVAL. repeat split; done. Qed.

Lemma runCleanup_clears (p : Poller) :
  poller_inv p → mounted p = true → intervals (runCleanup p) = [].
Proof.
  unfold poller_inv. intros Hinv Hm. rewrite Hm in Hinv.
  destruct Hinv as (id & d & Hc & Hi & _).
  unfold runCleanup. rewrite Hc. simpl. rewrite Hi. simpl.
  by rewrite Nat.eqb_refl.
Qed.

Lemma elapse_due (ms : N) (i : Interval) :
  (0 < dueIn i ≤ POLL_INTERVAL)%N → (0 < dueIn (elapse ms i) ≤ POLL_INTERVAL)%N.
Proof.
  intros Hd. unfold elapse. simpl.
  assert ((ms - dueIn i) `mod` POLL_INTERVAL < POLL_INTERVAL)%N as Hmod
    by (by apply N.mod_upper_bound).
  unfold POLL_INTERVAL in *.
  destruct (ms <? dueIn i)%N eqn:E.
  - apply N.ltb_lt in E. lia.
  - revert Hmod. generalize ((ms - dueIn i) `mod` 60000)%N. lia.
Qed.

Lemma poller_inv_step (p : Poller) (e : Event) :
  poller_inv p → poller_inv (step p e).1.
Proof.
  intros Hinv. destruct e as [nodeId|ms|]; simpl.
  - destruct (mounted p) eqn:Hm; simpl; [|done].
    destruct (String.eqb nodeId (polledNode p)); simpl; [done|].
    pose proof (runCleanup_clears p Hinv Hm) as Hclear.
    unfold poller_inv in *. rewrite Hm in Hinv.
    destruct Hinv as (id & d & Hc & Hi & Hd).
    unfold runEffect, setInterval. simpl.
    assert (mounted (runCleanup p) = true) as ->
      by (unfold runCleanup; rewrite Hc; simpl; exact Hm).
    rewrite Hclear. simpl.
    eexists _, _. repeat split; done.
  - unfold poller_inv in *. simpl. destruct (mounted p).
    + destruct Hinv as (id & d & Hc & Hi & Hd).
      rewrite Hi. simpl. eexists _, _. split; [exact Hc|]. split; [reflexivity|].
      apply (elapse_due ms {| intervalId := id; callbackNode := polledNode p;
                              dueIn := d |} Hd).
    + by rewrite Hinv.
  - destruct (mounted p) eqn:Hm; simpl; [|done].
    unfold poller_inv. simpl. by apply runCleanup_clears.
Qed.

Lemma poller_inv_run (events : list Event) (p : Poller) :
  poller_inv p → poller_inv (run p events).
Proof.
  revert p. induction events as [|e events IH]; intros p Hinv; [done|].
  apply IH. by apply poller_inv_step.
Qed.

Lemma poller_inv_intervals (p : Poller) :
  poller_inv p → (length (intervals p) ≤ 1)%nat.
Proof.
  unfold poller_inv. destruct (mounted p).
  - intros (id & d & _ & -> & _). done.
  - intros ->. simpl. lia.
Qed.

(** Whatever time passes, the periodic calls are for the current
    [selectedNode]. *)
Lemma periodic_calls_current_node (p : Poller) (ms : N) :
  poller_inv p → Forall (λ nodeId, nodeId = polledNode p) (step p (Advance ms)).2.
Proof.
  unfold poller_inv. simpl. destruct (mounted p).
  - intros (id & d & _ & -> & _). simpl. rewrite app_nil_r.
    unfold intervalCallback. simpl.
    induction (N.to_nat _) as [|n IH]; simpl; [constructor|].
    apply Forall_app. split; [|exact IH].
    destruct (truthy_string (polledNode p)); by repeat constructor.
  - intros ->. constructor.
Qed.

(** C8: after any events at most one polling interval is registered, and
    its periodic calls are for the current [selectedNode] only.  When
    the selected node changes, the cleanup of the previous effect has
    cleared the previous interval before the new one is registered, so that
    one interval is left, due in 60000 ms with the new node in its callback;
    advancing the time by 60000 ms then makes exactly one periodic call of
    [fetchStatsForNode], for the new node. *)
Theorem one_polling_interval (events : list Event) :
  let p := run mount events in
  (length (intervals p) ≤ 1)%nat ∧
  (∀ ms, Forall (λ nodeId, nodeId = polledNode p) (step p (Advance ms)).2) ∧
  ∀ nodeId : string,
    mounted p = true → nodeId ≠ polledNode p → nodeId ≠ "" →
    let p' := (step p (SetSelectedNode nodeId)).1 in
    intervals (runCleanup p) = [] ∧
    p' = runEffect nodeId (runCleanup p) ∧
    (∃ id, intervals p'
           = [{| intervalId := id; callbackNode := nodeId; dueIn := POLL_INTERVAL |}]) ∧
    (step p' (Advance POLL_INTERVAL)).2 = [nodeId].
Proof.
  intros p.
  pose proof (poller_inv_run events mount poller_inv_mount) as Hinv. fold p in Hinv.
  split; [by apply poller_inv_intervals|].
  split; [intros ms; by apply periodic_calls_current_node|].
  intros nodeId Hm Hne Hnonempty p'.
  pose proof (runCleanup_clears p Hinv Hm) as Hclear.
  assert (p' = runEffect nodeId (runCleanup p)) as Hp'.
  { subst p'. simpl. rewrite Hm. simpl.
    destruct (String.eqb_spec nodeId (polledNode p)); [done|]. done. }
  split; [exact Hclear|]. split; [exact Hp'|].
  assert (intervals p' = [{| intervalId := nextIntervalId (runCleanup p);
                             callbackNode := nodeId; dueIn := POLL_INTERVAL |}]) as Hi.
  { rewrite Hp'. unfold runEffect, setInterval. simpl. by rewrite Hclear. }
  split; [by eexists|].
  simpl. rewrite Hi. simpl. unfold intervalCallback. simpl.
  destruct nodeId; [done|]. done.
Qed.

Lemma one_polling_interval_witness :
  let p := run mount [SetSelectedNode "n1"; Advance 90000] in
  let p' := (step p (SetSelectedNode "n2")).1 in
  polledNode p = "n1" ∧
  (step p (Advance 60000)).2 = ["n1"] ∧
  (length (intervals p') ≤ 1)%nat ∧
  (step p' (Advance 60000)).2 = ["n2"].
Proof.
  intros p p'.
  destruct (one_polling_interval [SetSelectedNode "n1"; Advance 90000])
    as (_ & _ & Hswitch).
  destruct (Hswitch "n2") as (_ & _ & _ & Hfetch); [reflexivity|discriminate..|].
  split; [reflexivity|]. split; [vm_compute; reflexivity|].
  split; [vm_compute; lia|exact Hfetch].
Defined.

(** ** A search over a group without a name *)

Lemma Array_filter_None {A} (p : A → option bool) (l : list A) :
  Exists (λ x, p x = None) l → Array_filter p l = None.
Proof.
  induction 1 as [x l Hx|x l _ IH]; simpl.
  - by rewrite Hx.
  - rewrite IH. by destruct (p x).
Qed.

(** X1: with a search text set, a fetched group that has no name ends the cycle
    in the [catch] of [fetchStatsForNode]: the rows, the summary and the time
    of the last update stay those of the previous cycle. *)
Theorem undefined_name_aborts_search `{Host} (http : Http) (nodeId : string)
    (st : State) (fetched : list WorkloadGroupData) :
  fetchedRows http nodeId = Some fetched →
  truthy_string (searchQuery st) = true →
  Exists (λ g, name g = None) fetched →
  fetchStatsForNode http nodeId st = setLoading false st.
Proof.
  intros Hfetched Hq Hnone.
  unfold fetchedRows in Hfetched. unfold fetchStatsForNode, fetchStatsForNode_try.
  destruct (fetchWorkloadGroupNameMap http) as [idToName|]; [|done].
  destruct (fetchWorkloadGroupsForNode http nodeId) as [workloadGroups|]; [|done].
  simpl in Hfetched. injection Hfetched as Hfetched. simpl.
  rewrite <- (length_fmap (newRow idToName (fetchWorkloadGroupsWithLimits http))).
  rewrite Hfetched, Hq.
  rewrite Array_filter_None; [done|].
  rewrite <- (deref_rawData (heap st) fetched) in Hnone.
  apply (proj1 (Exists_fmap _ _ _)) in Hnone.
  eapply Exists_impl; [exact Hnone|].
  intros r Hr. simpl in Hr. unfold matchesSearch. by rewrite Hr.
Qed.

Lemma undefined_name_aborts_search_witness :
  let st := setSearchQuery "alp" initialState in
  fmap (M:=list) name <$> fetchedRows example_http_unnamed "n1"
  = Some [Some "Alpha"; Some "Beta"; Some "Gamma"; None] ∧
  fetchStatsForNode example_http_unnamed "n1" st = setLoading false st ∧
  summaryStats (fetchStatsForNode example_http_unnamed "n1" st) = None.
Proof.
  intros st.
  assert (fetchStatsForNode example_http_unnamed "n1" st = setLoading false st) as Habort.
  { apply (undefined_name_aborts_search example_http_unnamed "n1" st
             (newRow {[ "a" := "Alpha"; "b" := "Beta"; "c" := "Gamma" ]}
                     (fetchWorkloadGroupsWithLimits example_http_unnamed)
                <$> (example_node_groups ++ [("d", example_stats 5 5 5 0.1 0.1)]))).
    - reflexivity.
    - reflexivity.
    - do 3 apply Exists_cons_tl. by apply Exists_cons_hd. }
  split; [vm_compute; reflexivity|]. split; [exact Habort|].
  by rewrite Habort.
Defined.

(** ** Box-plot statistics of the visible page *)

(** X2: a cycle requests the details of the rows of the current page only: in
    the sorted rows it leaves, the rows of the page hold the result of their
    detail round and every row outside the page keeps empty box-plot
    arrays. *)
Theorem box_stats_only_on_page `{Host} (http : Http) (nodeId : string)
    (st : State) (fetched : list WorkloadGroupData) :
  fetchedRows http nodeId = Some fetched →
  (truthy_string (searchQuery st) = true → Forall (λ g, is_Some (name g)) fetched) →
  let sorted := Array_sort (compareRows (sortField st) (sortDirection st))
                           (searchedRows (searchQuery st) fetched) in
  let k := Z.to_nat (relative_index (Z.of_nat (length sorted))
                                    (pageIndex st * pageSize st)) in
  let page := paginate sorted (pageIndex st) (pageSize st) in
  dataRows (fetchStatsForNode http nodeId st)
  = take k sorted ++ (withBoxStats http <$> page) ++ drop (k + length page) sorted ∧
  Forall (λ g, cpuStats g = [] ∧ memStats g = [])
         (take k sorted ++ drop (k + length page) sorted).
Proof.
  intros Hfetched Hnames sorted k page.
  destruct (fetchStatsForNode_spec http nodeId st fetched Hfetched Hnames)
    as (Hrows & _).
  split; [exact Hrows|].
  pose proof (searchedRows_no_stats http nodeId (searchQuery st) (sortField st)
                (sortDirection st) fetched Hfetched) as Hempty.
  fold sorted in Hempty.
  apply Forall_app. split.
  - eapply Forall_of_sublist; [exact Hempty|apply sublist_take].
  - eapply Forall_of_sublist; [exact Hempty|apply sublist_drop].
Qed.

Lemma box_stats_only_on_page_witness :
  let st := setPage 0 2 initialState in
  let out := dataRows (fetchStatsForNode example_http "n1" st) in
  groupId <$> out = ["a"; "b"; "c"] ∧
  (λ g, length (cpuStats g)) <$> out = [5; 0; 0]%nat ∧
  get_group_stats example_http "c" ≠ None ∧
  Forall (λ g, cpuStats g = [] ∧ memStats g = []) (drop 2 out).
Proof.
  intros st out.
  destruct (box_stats_only_on_page example_http "n1" st
              (newRow {[ "a" := "Alpha"; "b" := "Beta"; "c" := "Gamma" ]}
                      (fetchWorkloadGroupsWithLimits example_http)
                 <$> example_node_groups))
    as (Hrows & Hoff).
  - reflexivity.
  - discriminate.
  - split; [vm_compute; reflexivity|]. split; [vm_compute; reflexivity|].
    split; [discriminate|].
    subst out. rewrite Hrows. vm_compute. vm_compute in Hoff. exact Hoff.
Defined.

(** ** Sorting the rows *)

(** X3: for every column and direction [sortData] returns a rearrangement of
    the rows it is given, whatever their values; on a numeric column whose
    values hold no NaN the rows come out in ascending order of the column
    for ['asc'] and in descending order for ['desc']. *)
Theorem sortData_sorted_permutation `{Host} (h : Heap) (rawData : list Ref)
    (field : SortField) :
  (∀ direction, sortData h rawData field direction ≡ₚ rawData) ∧
  ∀ get : WorkloadGroupData → number,
    column field = inl get →
    Forall (λ r, Number.isNaN (get (deref h r)) = false) rawData →
    Sorted Number.le (get <$> rows h (sortData h rawData field ASC)) ∧
    Sorted (flip Number.le) (get <$> rows h (sortData h rawData field DESC)).
Proof.
  split; [intros direction; apply Array_sort_Permutation|].
  intros get Hcol Hnan.
  unfold rows. rewrite <- !list_fmap_compose. split.
  - apply (Sorted_fmap (get ∘ deref h)
             (λ a b, Number.le (get (deref h a)) (get (deref h b))));
      [done|].
    apply (Sorted_Array_sort _ _ (λ r, Number.isNaN (get (deref h r)) = false));
      [|done].
    intros x y Hx Hy. unfold after, compareRows. rewrite Hcol.
    apply (after_numeric_ascending _ _ Hx Hy).
  - apply (Sorted_fmap (get ∘ deref h)
             (λ a b, Number.le (get (deref h b)) (get (deref h a))));
      [done|].
    apply (Sorted_Array_sort _ _ (λ r, Number.isNaN (get (deref h r)) = false));
      [|done].
    intros x y Hx Hy. unfold after, compareRows. rewrite Hcol.
    pose proof (after_numeric_ascending _ _ Hy Hx) as Hd.
    unfold after, numeric_ascending in Hd.
    by destruct (Number.gt _ _).
Qed.

Lemma sortData_sorted_permutation_witness :
  let st := fetchStatsForNode example_http "n1" initialState in
  totalCompletions <$> rows (heap st) (data st) = [of_Z 1; of_Z 10; of_Z 100] ∧
  totalCompletions <$> rows (heap st) (sortData (heap st) (data st) by_totalCompletions DESC)
  = [of_Z 100; of_Z 10; of_Z 1] ∧
  Sorted (flip Number.le)
    (totalCompletions
       <$> rows (heap st) (sortData (heap st) (data st) by_totalCompletions DESC)) ∧
  sortData (heap st) (data st) by_name ASC ≡ₚ data st.
Proof.
  intros st.
  destruct (sortData_sorted_permutation (heap st) (data st) by_totalCompletions)
    as (_ & Hsorted).
  destruct (Hsorted totalCompletions) as (_ & Hdesc).
  - reflexivity.
  - vm_compute. repeat constructor.
  - split; [vm_compute; reflexivity|]. split; [vm_compute; reflexivity|].
    split; [exact Hdesc|].
    apply (sortData_sorted_permutation (heap st) (data st) by_name).
Defined.

(** ** More on the refresh cycle *)

(** A property of the searched rows that the detail round keeps holds of
    every row a cycle stores. *)
Lemma dataRows_Forall `{Host} (P : WorkloadGroupData → Prop) (http : Http)
    (nodeId : string) (st : State) (fetched : list WorkloadGroupData) :
  fetchedRows http nodeId = Some fetched →
  (truthy_string (searchQuery st) = true → Forall (λ g, is_Some (name g)) fetched) →
  (∀ g, P g → P (withBoxStats http g)) →
  Forall P (searchedRows (searchQuery st) fetched) →
  Forall P (dataRows (fetchStatsForNode http nodeId st)).
Proof.
  intros Hfetched Hnames Hkeep HP.
  destruct (fetchStatsForNode_spec http nodeId st fetched Hfetched Hnames)
    as (-> & _).
  set (sorted := Array_sort _ _).
  assert (Forall P sorted) as Hsorted by (unfold sorted; by rewrite Array_sort_Permutation).
  repeat (apply Forall_app; split).
  - eapply Forall_of_sublist; [exact Hsorted|apply sublist_take].
  - apply Forall_fmap. eapply Forall_impl; [|exact Hkeep].
    eapply Forall_of_sublist; [exact Hsorted|apply Array_slice_sublist].
  - eapply Forall_of_sublist; [exact Hsorted|apply sublist_drop].
Qed.

Lemma name_withBoxStats (http : Http) (g : WorkloadGroupData) :
  name (withBoxStats http g) = name g.
Proof. by destruct (withBoxStats_frame http g) as (c & m & ->). Qed.

(** The name map holds every id of the response. *)
Lemma nameMap_lookup (groups : list WorkloadGroup) (m : gmap string string) (id : string) :
  is_Some (m !! id) ∨ id ∈ (_id <$> groups) →
  is_Some (foldl (λ map group, <[_id group := group_name group]> map) m groups !! id).
Proof.
  revert m. induction groups as [|g groups IH]; intros m Hid; simpl.
  - destruct Hid as [?|Hid]; [done|]. by apply elem_of_nil in Hid.
  - apply IH. destruct (decide (_id g = id)) as [<-|Hne].
    + left. rewrite lookup_insert_eq. by eexists.
    + destruct Hid as [Hm|Hid].
      * left. by rewrite lookup_insert_ne.
      * right. rewrite fmap_cons in Hid.
        apply elem_of_cons in Hid as [?|?]; [congruence|done].
Qed.

(** X4: When every group of the node is the default group or is listed in the
    workload-group response, every row has a name and the cycle reaches its
    end whatever the search text is. *)
Theorem named_groups_complete_cycle `{Host} (http : Http) (nodeId : string)
    (st : State) (res : option (list WorkloadGroup))
    (workloadGroups : object GroupStats) :
  get_workload_group_for_names http = Some res →
  fetchWorkloadGroupsForNode http nodeId = Some workloadGroups →
  Forall (λ entry, entry.1 = "DEFAULT_WORKLOAD_GROUP" ∨
                   entry.1 ∈ (_id <$> nullish res [])) workloadGroups →
  let st' := fetchStatsForNode http nodeId st in
  lastUpdated st' = Some (now http) ∧
  is_Some (summaryStats st') ∧
  Forall (λ g, is_Some (name g)) (dataRows st').
Proof.
  intros Hres Hgroups Hnamed st'.
  set (idToName := foldl (λ map group, <[_id group := group_name group]> map)
                         (∅ : gmap string string) (nullish res [])).
  set (fetched := fmap (M:=list) (newRow idToName (fetchWorkloadGroupsWithLimits http))
                       workloadGroups).
  assert (fetchedRows http nodeId = Some fetched) as Hfetched.
  { unfold fetchedRows, fetchWorkloadGroupNameMap. rewrite Hres. simpl.
    by rewrite Hgroups. }
  assert (Forall (λ g, is_Some (name g)) fetched) as Hnames.
  { apply Forall_fmap. eapply Forall_impl; [exact Hnamed|].
    intros [id stats]. simpl. intros [->|Hid]; [by eexists|].
    destruct (String.eqb id "DEFAULT_WORKLOAD_GROUP"); [by eexists|].
    apply nameMap_lookup. by right. }
  destruct (fetchStatsForNode_spec http nodeId st fetched Hfetched (λ _, Hnames))
    as (_ & Hsummary & Hnow & _).
  subst st'. split; [exact Hnow|]. split; [by rewrite Hsummary|].
  apply (dataRows_Forall _ http nodeId st fetched Hfetched (λ _, Hnames)).
  - intros g. by rewrite name_withBoxStats.
  - eapply Forall_of_sublist; [exact Hnames|apply searchedRows_sublist].
Qed.

Lemma named_groups_complete_cycle_witness :
  let st' := fetchStatsForNode example_http "n1" (setSearchQuery "GAM" initialState) in
  lastUpdated st' = Some (now example_http) ∧
  name <$> dataRows st' = [Some "Gamma"].
Proof.
  intros st'.
  destruct (named_groups_complete_cycle example_http "n1"
              (setSearchQuery "GAM" initialState) (Some example_groups)
              example_node_groups) as (Hnow & _ & _).
  - reflexivity.
  - reflexivity.
  - repeat constructor; right; vm_compute; set_solver.
  - split; [exact Hnow|vm_compute; reflexivity].
Defined.

(** X5: A rejected request for the workload-group names or for the statistics of
    the node ends the cycle in its [catch]: the rows, the summary and the
    time of the last update stay those of the previous cycle, only [loading]
    is reset. *)
Theorem rejected_request_keeps_state `{Host} (http : Http) (nodeId : string)
    (st : State) :
  get_workload_group_for_names http = None ∨ get_node_stats http nodeId = None →
  fetchStatsForNode http nodeId st = setLoading false st.
Proof.
  intros Hrejected.
  unfold fetchStatsForNode, fetchStatsForNode_try, fetchWorkloadGroupNameMap,
    fetchWorkloadGroupsForNode.
  destruct Hrejected as [->| ->]; [done|].
  by destruct (get_workload_group_for_names http).
Qed.

Lemma rejected_request_keeps_state_witness :
  let st := fetchStatsForNode example_http "n1" initialState in
  let st' := fetchStatsForNode example_http_down "n1" st in
  groupId <$> dataRows st' = ["a"; "b"; "c"] ∧
  summaryStats st' = summaryStats st ∧
  lastUpdated st' = Some (now example_http) ∧
  loading st' = false.
Proof.
  intros st st'. subst st'.
  rewrite (rejected_request_keeps_state example_http_down "n1" st (or_introl eq_refl)).
  repeat split; vm_compute; reflexivity.
Defined.

Lemma paginate_nil {A} (pageIndex pageSize : Z) :
  paginate (@nil A) pageIndex pageSize = [].
Proof. unfold paginate, Array_slice. by rewrite drop_nil, take_nil. Qed.

(** After a cycle the table pages through the rows the cycle stored. *)
Lemma tableItems_after_cycle `{Host} (http : Http) (nodeId : string) (st : State)
    (fetched : list WorkloadGroupData) :
  fetchedRows http nodeId = Some fetched →
  (truthy_string (searchQuery st) = true → Forall (λ g, is_Some (name g)) fetched) →
  let st' := fetchStatsForNode http nodeId st in
  filteredData st' = data st' ∧
  pageIndex st' = pageIndex st ∧ pageSize st' = pageSize st ∧
  searchQuery st' = searchQuery st ∧
  tableItems st' = paginate (dataRows st') (pageIndex st) (pageSize st).
Proof.
  intros Hfetched Hnames st'.
  destruct (fetchStatsForNode_try_spec http nodeId (setLoading true st) fetched
              Hfetched Hnames)
    as (st1 & Htry & _ & Hfd & _ & Hq & Hpi & Hps & _).
  assert (filteredData st' = data st' ∧ pageIndex st' = pageIndex st ∧
          pageSize st' = pageSize st ∧ searchQuery st' = searchQuery st)
    as (Hfd' & Hpi' & Hps' & Hq').
  { subst st'. unfold fetchStatsForNode. rewrite Htry. simpl. by simpl in *. }
  repeat (split; [done|]).
  rewrite tableItems_paginate. unfold dataRows. by rewrite Hfd', Hpi', Hps'.
Qed.

(** X6: A statistics response that leaves the node out, or gives it no
    [workload_groups], is read as a node without groups: the cycle stores an
    empty table and a summary of five zeros. *)
Theorem node_without_groups_empties_table `{Host} (http : Http) (nodeId : string)
    (st : State) (res : option (list WorkloadGroup)) (body : gmap string NodeGroups) :
  get_workload_group_for_names http = Some res →
  get_node_stats http nodeId = Some body →
  body !! nodeId ≫= node_workload_groups = None →
  let st' := fetchStatsForNode http nodeId st in
  dataRows st' = [] ∧
  tableItems st' = [] ∧
  summaryStats st'
  = Some {| totalGroups := of_Z 0; stat_totalCompletions := of_Z 0;
            stat_totalRejections := of_Z 0; stat_totalCancellations := of_Z 0;
            groupsExceedingLimits := of_Z 0 |} ∧
  lastUpdated st' = Some (now http).
Proof.
  intros Hres Hbody Hnode st'.
  assert (fetchedRows http nodeId = Some []) as Hfetched.
  { assert (fetchWorkloadGroupsForNode http nodeId = Some []) as Hgroups.
    { unfold fetchWorkloadGroupsForNode. rewrite Hbody.
      change (Some (nullish (body !! nodeId ≫= node_workload_groups) [])
              = Some ([] : object GroupStats)).
      by rewrite Hnode. }
    unfold fetchedRows, fetchWorkloadGroupNameMap. rewrite Hres, Hgroups. done. }
  destruct (fetchStatsForNode_spec http nodeId st [] Hfetched (λ _, Forall_nil_2 _))
    as (Hrows & Hsummary & Hnow & _).
  fold st' in Hrows, Hsummary, Hnow.
  assert (searchedRows (searchQuery st) [] = []) as Hshown
    by (unfold searchedRows; by destruct (truthy_string _)).
  rewrite Hshown in Hrows, Hsummary.
  assert (dataRows st' = []) as Hempty.
  { rewrite Hrows. change (Array_sort _ []) with (@nil WorkloadGroupData).
    by rewrite paginate_nil, take_nil, drop_nil. }
  split; [exact Hempty|]. split; [|split; [exact Hsummary|exact Hnow]].
  destruct (tableItems_after_cycle http nodeId st [] Hfetched (λ _, Forall_nil_2 _))
    as (_ & _ & _ & _ & Hitems).
  fold st' in Hitems. rewrite Hitems, Hempty. apply paginate_nil.
Qed.

Lemma node_without_groups_empties_table_witness :
  let st := fetchStatsForNode example_http "n1" initialState in
  let st' := fetchStatsForNode example_http_other_node "n1" st in
  length (dataRows st) = 3%nat ∧
  dataRows st' = [] ∧
  summaryStats st'
  = Some {| totalGroups := of_Z 0; stat_totalCompletions := of_Z 0;
            stat_totalRejections := of_Z 0; stat_totalCancellations := of_Z 0;
            groupsExceedingLimits := of_Z 0 |}.
Proof.
  intros st st'.
  destruct (node_without_groups_empties_table example_http_other_node "n1" st
              (Some example_groups)
              {[ "n2" := {| node_workload_groups := Some example_node_groups |} ]})
    as (Hrows & _ & Hsummary & _); [reflexivity..|].
  split; [vm_compute; reflexivity|]. split; [exact Hrows|exact Hsummary].
Defined.

(** ** The rows on the page after a cycle *)

Lemma relative_index_bounds (len k : Z) :
  0 ≤ len → 0 ≤ relative_index len k ≤ len.
Proof. unfold relative_index. destruct (k <? 0) eqn:E; lia. Qed.

(** Replacing the page of a list by a list of the same length and taking the
    page again gives the replacement. *)
Lemma Array_slice_replace {A} (l W : list A) (start final : Z) :
  let k := Z.to_nat (relative_index (Z.of_nat (length l)) start) in
  length W = length (Array_slice l start final) →
  Array_slice (take k l ++ W ++ drop (k + length W) l) start final = W.
Proof.
  intros k HW.
  pose proof (relative_index_bounds (Z.of_nat (length l)) start ltac:(lia)) as Hk.
  assert (k ≤ length l)%nat as Hkl by lia.
  assert (length W ≤ length l - k)%nat as HWl.
  { rewrite HW. unfold Array_slice. fold k. rewrite length_take, length_drop. lia. }
  assert (length (take k l ++ W ++ drop (k + length W) l) = length l) as Hlen.
  { rewrite !length_app, length_take, length_drop. lia. }
  unfold Array_slice at 1. rewrite Hlen. fold k.
  unfold Array_slice in HW. fold k in HW.
  set (c := Z.to_nat (Z.max _ 0)) in *.
  rewrite drop_app_length'; [|rewrite length_take; lia].
  rewrite length_take, length_drop in HW.
  destruct (decide (c ≤ length l - k)%nat) as [Hc|Hc].
  - rewrite take_app_length'; [done|lia].
  - rewrite (drop_ge l) by lia. rewrite app_nil_r. apply take_ge. lia.
Qed.

Lemma paginate_after_detail {A} (f : A → A) (l : list A) (pageIndex pageSize : Z) :
  let k := Z.to_nat (relative_index (Z.of_nat (length l)) (pageIndex * pageSize)) in
  let page := paginate l pageIndex pageSize in
  paginate (take k l ++ (f <$> page) ++ drop (k + length page) l) pageIndex pageSize
  = f <$> page.
Proof.
  intros k page. unfold paginate.
  pose proof (Array_slice_replace l (f <$> page) (pageIndex * pageSize)
                ((pageIndex + 1) * pageSize)) as Hreplace.
  simpl in Hreplace. rewrite length_fmap in Hreplace. by apply Hreplace.
Qed.

Lemma length_computeBoxStats (arr : list number) : length (computeBoxStats arr) = 5%nat.
Proof. unfold computeBoxStats. by destruct (_ =? _)%nat. Qed.

(** Only nodes that report the group give a sample. *)
Lemma nodeUsages_unreported (id : string) (stats : object NodeStats) :
  Forall (λ entry, entry.1 = "_nodes" ∨ entry.1 = "cluster_name" ∨
                   workload_groups entry.2 ≫= (.!! id) = None) stats →
  nodeUsages id stats = ([], []).
Proof.
  unfold nodeUsages.
  induction 1 as [|[key node] stats Hentry _ IH]; [done|].
  simpl in Hentry. cbn [foldl].
  destruct Hentry as [->|[->|Hnone]]; simpl; try exact IH.
  rewrite Hnone. destruct (_ || _); exact IH.
Qed.

(** The rows shown after a cycle that slices by the page of the state are
    the page of the sorted rows, each after its own detail round. *)
Lemma cycle_page_holds_detail_results `{Host} (http : Http) (nodeId : string)
    (st : State) (fetched : list WorkloadGroupData) :
  fetchedRows http nodeId = Some fetched →
  (truthy_string (searchQuery st) = true → Forall (λ g, is_Some (name g)) fetched) →
  let st' := fetchStatsForNode http nodeId st in
  let sorted := Array_sort (compareRows (sortField st) (sortDirection st))
                           (searchedRows (searchQuery st) fetched) in
  tableItems st' = withBoxStats http <$> paginate sorted (pageIndex st) (pageSize st) ∧
  Forall (λ g, match get_group_stats http (groupId g) with
               | None => cpuStats g = [] ∧ memStats g = []
               | Some stats =>
                   cpuStats g = computeBoxStats (nodeUsages (groupId g) stats).1 ∧
                   memStats g = computeBoxStats (nodeUsages (groupId g) stats).2
               end) (tableItems st').
Proof.
  intros Hfetched Hnames st' sorted.
  destruct (fetchStatsForNode_spec http nodeId st fetched Hfetched Hnames)
    as (Hrows & _).
  destruct (tableItems_after_cycle http nodeId st fetched Hfetched Hnames)
    as (_ & _ & _ & _ & Hitems).
  fold st' in Hrows, Hitems. fold sorted in Hrows.
  assert (tableItems st'
          = withBoxStats http <$> paginate sorted (pageIndex st) (pageSize st)) as Hpage.
  { rewrite Hitems, Hrows. apply paginate_after_detail. }
  split; [exact Hpage|]. rewrite Hpage.
  apply Forall_fmap, Forall_forall. intros g Hg. simpl.
  assert (cpuStats g = [] ∧ memStats g = []) as Hempty.
  { pose proof (searchedRows_no_stats http nodeId (searchQuery st) (sortField st)
                  (sortDirection st) fetched Hfetched) as Hall.
    eapply Forall_forall in Hall; [exact Hall|].
    eapply elem_of_sublist; [exact Hg|apply Array_slice_sublist]. }
  rewrite groupId_withBoxStats. unfold withBoxStats.
  destruct (get_group_stats http (groupId g)); [|done].
  by destruct (nodeUsages _ _).
Qed.

(** X8: The NaN-filled sentinel is what a row of the page gets when its detail
    request succeeds and no node of the response reports the group. *)
Theorem unreported_group_gets_sentinel `{Host} (http : Http) (nodeId : string)
    (st : State) (fetched : list WorkloadGroupData) :
  fetchedRows http nodeId = Some fetched →
  (truthy_string (searchQuery st) = true → Forall (λ g, is_Some (name g)) fetched) →
  Forall (λ g, ∀ stats,
            get_group_stats http (groupId g) = Some stats →
            Forall (λ entry, entry.1 = "_nodes" ∨ entry.1 = "cluster_name" ∨
                             workload_groups entry.2 ≫= (.!! (groupId g)) = None) stats →
            cpuStats g = [NaN; NaN; NaN; NaN; NaN] ∧
            memStats g = [NaN; NaN; NaN; NaN; NaN])
         (tableItems (fetchStatsForNode http nodeId st)).
Proof.
  intros Hfetched Hnames.
  destruct (fetchStatsForNode_spec http nodeId st fetched Hfetched Hnames)
    as (Hrows & _).
  destruct (tableItems_after_cycle http nodeId st fetched Hfetched Hnames)
    as (_ & _ & _ & _ & Hitems).
  rewrite Hitems, Hrows, paginate_after_detail.
  apply Forall_fmap, Forall_forall. intros g _ stats. simpl.
  rewrite groupId_withBoxStats. intros Hstats Hnone.
  unfold withBoxStats. rewrite Hstats.
  by rewrite (nodeUsages_unreported _ _ Hnone).
Qed.

Lemma unreported_group_gets_sentinel_witness :
  let st' := fetchStatsForNode example_http_unreported "n1" initialState in
  ∃ g, tableItems st' !! 2%nat = Some g ∧ groupId g = "c" ∧
    cpuStats g = [NaN; NaN; NaN; NaN; NaN] ∧
    memStats g = [NaN; NaN; NaN; NaN; NaN].
Proof.
  intros st'.
  pose proof (unreported_group_gets_sentinel example_http_unreported "n1" initialState
                (newRow {[ "a" := "Alpha"; "b" := "Beta"; "c" := "Gamma" ]}
                        (fetchWorkloadGroupsWithLimits example_http_unreported)
                   <$> example_node_groups) eq_refl) as Hall.
  assert (truthy_string (searchQuery initialState) = true →
          Forall (λ g, is_Some (name g))
            (newRow {[ "a" := "Alpha"; "b" := "Beta"; "c" := "Gamma" ]}
                    (fetchWorkloadGroupsWithLimits example_http_unreported)
               <$> example_node_groups)) as Hnames by discriminate.
  specialize (Hall Hnames). fold st' in Hall.
  assert (is_Some (tableItems st' !! 2%nat)) as [g Hg] by (vm_compute; by eexists).
  exists g. split; [exact Hg|].
  assert (groupId g = "c") as Hid by (vm_compute in Hg; by injection Hg as <-).
  split; [exact Hid|].
  eapply Forall_lookup_1 in Hall; [|exact Hg].
  apply (Hall (example_detail "other")).
  - rewrite Hid. reflexivity.
  - rewrite Hid. unfold example_detail.
    apply Forall_cons; split; [by left|].
    apply Forall_cons; split; [right; right; vm_compute; reflexivity|].
    apply Forall_cons; split; [right; right; vm_compute; reflexivity|].
    apply Forall_nil_2.
Defined.

(** X9: After a cycle both box-plot arrays of every row are empty or hold
    exactly five values. *)
Theorem box_stats_empty_or_five `{Host} (http : Http) (nodeId : string)
    (st : State) (fetched : list WorkloadGroupData) :
  fetchedRows http nodeId = Some fetched →
  (truthy_string (searchQuery st) = true → Forall (λ g, is_Some (name g)) fetched) →
  Forall (λ g, length (cpuStats g) = length (memStats g) ∧
               (length (cpuStats g) = 0 ∨ length (cpuStats g) = 5)%nat)
         (dataRows (fetchStatsForNode http nodeId st)).
Proof.
  intros Hfetched Hnames.
  apply (dataRows_Forall _ http nodeId st fetched Hfetched Hnames).
  - intros g Hg. unfold withBoxStats.
    destruct (get_group_stats http (groupId g)); [|done].
    destruct (nodeUsages _ _). simpl. rewrite !length_computeBoxStats. auto.
  - eapply Forall_of_sublist; [|apply searchedRows_sublist].
    eapply Forall_impl; [by eapply fetchedRows_no_stats|].
    intros g [-> ->]. auto.
Qed.

Lemma box_stats_empty_or_five_witness :
  let out := dataRows (fetchStatsForNode example_http "n1" (setPage 0 2 initialState)) in
  (λ g, (length (cpuStats g), length (memStats g))) <$> out
  = [(5, 5); (0, 0); (0, 0)]%nat ∧
  Forall (λ g, length (cpuStats g) = length (memStats g) ∧
               (length (cpuStats g) = 0 ∨ length (cpuStats g) = 5)%nat) out.
Proof.
  intros out. split; [vm_compute; reflexivity|].
  apply (box_stats_empty_or_five example_http "n1" (setPage 0 2 initialState)
           (newRow {[ "a" := "Alpha"; "b" := "Beta"; "c" := "Gamma" ]}
                   (fetchWorkloadGroupsWithLimits example_http)
              <$> example_node_groups)).
  - reflexivity.
  - discriminate.
Defined.

(** ** The box-plot chart *)

(** Sorting a list that is in ascending order and holds no NaN leaves it as
    it is. *)
Lemma Array_sort_sorted (l : list number) :
  Sorted Number.le l → Array_sort numeric_ascending l = l.
Proof.
  induction 1 as [|x l Hs IH Hx]; [done|].
  rewrite Array_sort_cons, IH.
  destruct Hx as [|y l Hxy]; [done|]. simpl.
  assert (after numeric_ascending x y = false) as ->; [|done].
  unfold after, numeric_ascending, Number.gt, of_Z.
  destruct x as [| |x|], y as [| |y|]; simpl in *; try done.
  apply negb_false_iff, Qle_bool_iff. unfold inject_Z. lra.
Qed.

Lemma computeBoxStats_Sorted (arr : list number) :
  arr ≠ [] → Forall (λ x, Number.isNaN x = false) arr →
  Sorted Number.le (computeBoxStats arr).
Proof.
  intros Hne Hnan.
  destruct (computeBoxStats_reads arr Hne)
    as (a & b & c & d & e & Ha & Hb & Hc & Hd & He & ->).
  rewrite floorRank_quarter in Hb. rewrite floorRank_half in Hc.
  rewrite floorRank_three_quarters in Hd.
  assert (0 < length arr)%nat as Hn by (destruct arr; simpl; [done|lia]).
  destruct (ranks_ordered _ Hn) as (H1 & H2 & H3).
  pose proof (Sorted_numeric_ascending arr Hnan) as Hs.
  assert (Forall (λ x, Number.isNaN x = false) (Array_sort numeric_ascending arr))
    as Hnan' by by rewrite Array_sort_Permutation.
  pose proof (λ i j x y, Sorted_le_lookup _ i j x y Hs Hnan') as Hle.
  pose proof (Hle _ _ a b (Nat.le_0_l _) Ha Hb).
  pose proof (Hle _ _ b c H1 Hb Hc).
  pose proof (Hle _ _ c d H2 Hc Hd).
  pose proof (Hle _ _ d e H3 Hd He).
  repeat constructor; assumption.
Qed.

(** X10: The chart shows the box-plot statistics of a row as they are: the sort
    of [getBoxplotOption] leaves the five values of [computeBoxStats] in
    their places, so the series is min, Q1, median, Q3, max of the samples.
    For a row without statistics (empty arrays) all five values of the
    series are [undefined]. *)
Theorem boxplot_shows_box_stats (arr : list number) (limit : number) :
  arr ≠ [] → Forall (λ x, Number.isNaN x = false) arr →
  series_data (getBoxplotOption (computeBoxStats arr) limit)
  = Some <$> computeBoxStats arr ∧
  series_data (getBoxplotOption [] limit) = [None; None; None; None; None] ∧
  markLine_xAxis (getBoxplotOption (computeBoxStats arr) limit) = limit.
Proof.
  intros Hne Hnan. split; [|done].
  unfold getBoxplotOption. simpl.
  rewrite (Array_sort_sorted _ (computeBoxStats_Sorted arr Hne Hnan)).
  by destruct (computeBoxStats_reads arr Hne) as (a & b & c & d & e & _ & _ & _ & _ & _ & ->).
Qed.

Lemma boxplot_shows_box_stats_witness :
  series_data
    (getBoxplotOption (computeBoxStats [of_Z 90; of_Z 30; of_Z 60]) (of_Z 50))
  = [Some (of_Z 30); Some (of_Z 30); Some (of_Z 60); Some (of_Z 90); Some (of_Z 90)].
Proof.
  destruct (boxplot_shows_box_stats [of_Z 90; of_Z 30; of_Z 60] (of_Z 50))
    as (-> & _); [discriminate|repeat constructor|].
  vm_compute. reflexivity.
Defined.

(** ** The number of queries of a group *)

(** X11: [queryCount] is the first count, of latency, CPU and memory in this
    order, that is a number other than 0 and NaN, and 1 when there is none:
    it is never 0 or NaN, and a group whose counts are all 0 is announced as
    one query. *)
Theorem queryCount_first_count_or_one (measurements : Measurements) :
  let counts := [ measured_latency measurements ≫= measurement_count;
                  measured_cpu measurements ≫= measurement_count;
                  measured_memory measurements ≫= measurement_count ] in
  let counted (c : option number) :=
    match c with Some v => Number.truthy v | None => false end in
  Number.truthy (queryCount measurements) = true ∧
  Some (queryCount measurements)
  = nullish (head (List.filter counted counts)) (Some (of_Z 1)) ∧
  (Forall (λ c, counted c = false) counts →
   queryCount measurements = of_Z 1 ∧ queryNoun measurements = "query").
Proof.
  intros counts counted. unfold queryNoun, queryCount, or_else.
  subst counts counted.
  destruct (measured_latency measurements ≫= measurement_count) as [a|];
    [destruct (Number.truthy a) eqn:Ea|];
    (destruct (measured_cpu measurements ≫= measurement_count) as [b|];
     [destruct (Number.truthy b) eqn:Eb|]);
    (destruct (measured_memory measurements ≫= measurement_count) as [c|];
     [destruct (Number.truthy c) eqn:Ec|]);
    simpl; rewrite ?Ea, ?Eb, ?Ec; simpl; rewrite ?Ea, ?Eb, ?Ec; simpl;
    (split; [first [assumption|reflexivity]|]);
    (split; [reflexivity|]);
    intros Hall;
    repeat match goal with
           | H : Forall _ (_ :: _) |- _ => apply Forall_cons in H as [? H]
           end;
    simpl in *; first [congruence|split; reflexivity].
Qed.

(** ** The search field and the table's handlers *)

Lemma Array_filter_sublist {A} (p : A → option bool) (l k : list A) :
  Array_filter p l = Some k → k `sublist_of` l.
Proof.
  revert k. induction l as [|x l IH]; intros k; simpl.
  - by intros [= <-].
  - destruct (p x) as [b|]; [|done]. simpl.
    destruct (Array_filter p l) as [rest|]; [|done]. simpl.
    intros [= <-]. destruct b; constructor; by apply IH.
Qed.

Lemma filter_all {A} (p : A → bool) (l : list A) :
  Forall (λ x, p x = true) l → List.filter p l = l.
Proof. induction 1 as [|x l Hx _ IH]; simpl; [done|]. by rewrite Hx, IH. Qed.

Lemma Forall_filter_true {A} (p : A → bool) (l : list A) :
  Forall (λ x, p x = true) (List.filter p l).
Proof.
  induction l as [|x l IH]; simpl; [constructor|].
  destruct (p x) eqn:Hx; [by constructor|done].
Qed.

(** A cycle carries over what it does not set. *)
Lemma fetchStatsForNode_frame `{Host} (http : Http) (nodeId : string) (st : State) :
  let st' := fetchStatsForNode http nodeId st in
  searchQuery st' = searchQuery st ∧
  pageIndex st' = pageIndex st ∧ pageSize st' = pageSize st ∧
  sortField st' = sortField st ∧ sortDirection st' = sortDirection st ∧
  nodeIds st' = nodeIds st ∧ selectedNode st' = selectedNode st ∧
  loading st' = false.
Proof.
  intros st'. subst st'. unfold fetchStatsForNode, fetchStatsForNode_try.
  destruct (fetchWorkloadGroupNameMap http); [|done].
  destruct (fetchWorkloadGroupsForNode http nodeId); [|done]. simpl.
  destruct (if truthy_string (searchQuery st) then _ else _); done.
Qed.

(** X13: Each search filters the rows of [data] anew: what an earlier search left
    in [filteredData] plays no part, and [data] itself is not touched. *)
Theorem onSearchChange_filters_data_anew `{Host} (value1 value2 : string)
    (st st1 : State) :
  onSearchChange value1 st = Some st1 →
  onSearchChange value2 st1 = onSearchChange value2 st ∧
  data st1 = data st ∧
  filteredData st1 `sublist_of` data st ∧
  searchQuery st1 = toLowerCase value1.
Proof.
  unfold onSearchChange. intros H1.
  assert (∃ l, st1 = setFilteredData l (setSearchQuery (toLowerCase value1) st) ∧
               l `sublist_of` data st) as (l & -> & Hl).
  { destruct (negb (truthy_string (toLowerCase value1))).
    - injection H1 as <-. by eexists.
    - simpl in H1.
      destruct (Array_filter _ _) as [l|] eqn:Hf; [|done].
      injection H1 as <-. eexists. split; [done|].
      by apply Array_filter_sublist in Hf. }
  by repeat split.
Qed.

Lemma onSearchChange_filters_data_anew_witness :
  let st := fetchStatsForNode example_http "n1" initialState in
  ∃ st1 st2,
    onSearchChange "ALP" st = Some st1 ∧
    onSearchChange "a" st1 = Some st2 ∧
    onSearchChange "a" st = Some st2 ∧
    groupId <$> rows (heap st1) (filteredData st1) = ["a"] ∧
    groupId <$> rows (heap st2) (filteredData st2) = ["a"; "b"; "c"].
Proof.
  intros st.
  assert (is_Some (onSearchChange "ALP" st)) as [st1 H1] by (vm_compute; by eexists).
  assert (is_Some (onSearchChange "a" st)) as [st2 H2] by (vm_compute; by eexists).
  destruct (onSearchChange_filters_data_anew "ALP" "a" st st1 H1) as (H12 & _).
  exists st1, st2. split; [exact H1|]. split; [by rewrite H12|]. split; [exact H2|].
  vm_compute in H1, H2. injection H1 as <-. injection H2 as <-.
  split; vm_compute; reflexivity.
Defined.

Lemma dataRows_length `{Host} (http : Http) (nodeId : string) (st : State)
    (fetched : list WorkloadGroupData) :
  fetchedRows http nodeId = Some fetched →
  (truthy_string (searchQuery st) = true → Forall (λ g, is_Some (name g)) fetched) →
  length (dataRows (fetchStatsForNode http nodeId st))
  = length (searchedRows (searchQuery st) fetched).
Proof.
  intros Hfetched Hnames.
  destruct (fetchStatsForNode_spec http nodeId st fetched Hfetched Hnames)
    as (-> & _).
  set (sorted := Array_sort _ _).
  rewrite <- (Array_sort_length (compareRows (sortField st) (sortDirection st))
                (searchedRows (searchQuery st) fetched)).
  fold sorted.
  pose proof (Array_slice_split sorted (pageIndex st * pageSize st)
                ((pageIndex st + 1) * pageSize st)) as Hsplit.
  simpl in Hsplit. fold (paginate sorted (pageIndex st) (pageSize st)) in Hsplit.
  pose proof (f_equal (@length WorkloadGroupData) Hsplit) as Hlen.
  rewrite !length_app in Hlen. rewrite !length_app, length_fmap.
  by rewrite <- Hlen.
Qed.

Lemma matchesName_withBoxStats `{Host} (http : Http) (query : string)
    (g : WorkloadGroupData) :
  matchesName query (withBoxStats http g) = matchesName query g.
Proof. unfold matchesName. by rewrite name_withBoxStats. Qed.

(** A cycle keeps in [data] only the rows that match its search text. *)
Lemma dataRows_match `{Host} (http : Http) (nodeId : string) (st : State)
    (fetched : list WorkloadGroupData) :
  fetchedRows http nodeId = Some fetched →
  (truthy_string (searchQuery st) = true → Forall (λ g, is_Some (name g)) fetched) →
  truthy_string (searchQuery st) = true →
  Forall (λ g, matchesName (searchQuery st) g = true)
         (dataRows (fetchStatsForNode http nodeId st)).
Proof.
  intros Hfetched Hnames Hq.
  apply (dataRows_Forall _ http nodeId st fetched Hfetched Hnames).
  - intros g. by rewrite matchesName_withBoxStats.
  - unfold searchedRows. rewrite Hq. apply Forall_filter_true.
Qed.

(** X14: The rows a cycle filtered out by its search text are not in [data]:
    emptying the search field afterwards shows the rows of the cycle only,
    all of which match the text of the cycle, until the next cycle. *)
Theorem cleared_search_keeps_filtered_rows `{Host} (http : Http) (nodeId : string)
    (st : State) (fetched : list WorkloadGroupData) :
  fetchedRows http nodeId = Some fetched →
  (truthy_string (searchQuery st) = true → Forall (λ g, is_Some (name g)) fetched) →
  toLowerCase "" = "" →
  let st' := fetchStatsForNode http nodeId st in
  ∃ st2, onSearchChange "" st' = Some st2 ∧
    searchQuery st2 = "" ∧
    rows (heap st2) (filteredData st2) = dataRows st' ∧
    length (dataRows st') = length (searchedRows (searchQuery st) fetched) ∧
    (truthy_string (searchQuery st) = true →
     Forall (λ g, matchesName (searchQuery st) g = true)
            (rows (heap st2) (filteredData st2))).
Proof.
  intros Hfetched Hnames Hlower st'.
  unfold onSearchChange. rewrite Hlower. simpl.
  eexists. split; [reflexivity|]. simpl.
  split; [done|]. split; [done|].
  split; [exact (dataRows_length http nodeId st fetched Hfetched Hnames)|].
  intros Hq. exact (dataRows_match http nodeId st fetched Hfetched Hnames Hq).
Qed.

Lemma cleared_search_keeps_filtered_rows_witness :
  let st' := fetchStatsForNode example_http "n1" (setSearchQuery "alp" initialState) in
  fmap (M:=list) groupId <$> fetchedRows example_http "n1" = Some ["a"; "b"; "c"] ∧
  ∃ st2, onSearchChange "" st' = Some st2 ∧
    searchQuery st2 = "" ∧
    groupId <$> rows (heap st2) (filteredData st2) = ["a"].
Proof.
  intros st'.
  destruct (cleared_search_keeps_filtered_rows example_http "n1"
              (setSearchQuery "alp" initialState)
              (newRow {[ "a" := "Alpha"; "b" := "Beta"; "c" := "Gamma" ]}
                      (fetchWorkloadGroupsWithLimits example_http)
                 <$> example_node_groups))
    as (st2 & H2 & Hq & Hrows & _).
  - reflexivity.
  - intros _. repeat constructor; by eexists.
  - reflexivity.
  - split; [vm_compute; reflexivity|].
    exists st2. split; [exact H2|]. split; [exact Hq|].
    rewrite Hrows. vm_compute. reflexivity.
Defined.



(** ** Loading the node list *)

Lemma fetchStatsForNode_setNodeIds `{Host} (http : Http) (nodeId : string)
    (nodes : list string) (st : State) :
  fetchStatsForNode http nodeId (setNodeIds nodes st)
  = setNodeIds nodes (fetchStatsForNode http nodeId st).
Proof.
  unfold fetchStatsForNode, fetchStatsForNode_try.
  destruct (fetchWorkloadGroupNameMap http); [|done].
  destruct (fetchWorkloadGroupsForNode http nodeId); [|done]. simpl.
  destruct (if truthy_string (searchQuery st) then _ else _); done.
Qed.

Lemma fetchStatsForNode_setSelectedNode `{Host} (http : Http) (nodeId node : string)
    (st : State) :
  fetchStatsForNode http nodeId (setSelectedNode node st)
  = setSelectedNode node (fetchStatsForNode http nodeId st).
Proof.
  unfold fetchStatsForNode, fetchStatsForNode_try.
  destruct (fetchWorkloadGroupNameMap http); [|done].
  destruct (fetchWorkloadGroupsForNode http nodeId); [|done]. simpl.
  destruct (if truthy_string (searchQuery st) then _ else _); done.
Qed.

(** X17: When the node list has a node, [fetchDataFromBackend] leaves what a
    cycle for the default node leaves, with the list and the selection set
    and no toast.  The default node is the node selected before, if any,
    whether or not it is in the list received, and else the first of the
    list. *)
Theorem reload_fetches_default_node `{Host} (http : Http) (first : string)
    (rest : list string) (st : State) :
  let defaultNode :=
    if truthy_string (selectedNode st) then selectedNode st else first in
  fetchDataFromBackend (Some (Some (first :: rest))) http st
  = (setSelectedNode defaultNode
       (setNodeIds (first :: rest) (fetchStatsForNode http defaultNode st)), []).
Proof.
  intros defaultNode. unfold fetchDataFromBackend. simpl. fold defaultNode.
  f_equal.
  pose proof (fetchStatsForNode_frame http defaultNode st) as (_&_&_&_&_&_&_&Hl).
  assert (∀ n s, fetchStatsForNode http n (setLoading true s) = fetchStatsForNode http n s)
    as Hloading by done.
  rewrite fetchStatsForNode_setSelectedNode, fetchStatsForNode_setNodeIds, Hloading.
  destruct (fetchStatsForNode http defaultNode st); simpl in *. by rewrite Hl.
Qed.

(** ** Polling after a switch and after unmount *)

Lemma unmounted_run (events : list Event) (p : Poller) :
  mounted p = false → mounted (run p events) = false.
Proof.
  revert p. induction events as [|e events IH]; intros p Hm; [done|].
  apply IH. destruct e; simpl; by rewrite ?Hm.
Qed.

(** X18: Once the component is unmounted no periodic call is made, whatever
    happens before and after: the cleanup has cleared the interval and
    nothing registers one again. *)
Theorem no_periodic_call_after_unmount (before after : list Event) (ms : N) :
  (step (run mount (before ++ Unmount :: after)) (Advance ms)).2 = [].
Proof.
  pose proof (poller_inv_run (before ++ Unmount :: after) mount poller_inv_mount)
    as Hinv.
  assert (mounted (run mount (before ++ Unmount :: after)) = false) as Hm.
  { unfold run. rewrite foldl_app. simpl. apply unmounted_run.
    destruct (mounted (foldl _ mount before)) eqn:E; simpl; [done|exact E]. }
  unfold poller_inv in Hinv. rewrite Hm in Hinv. simpl. by rewrite Hinv.
Qed.

Lemma runs_from_full_period (ms : N) :
  runsWithin ms {| intervalId := 0; callbackNode := ""; dueIn := POLL_INTERVAL |}
  = (ms / POLL_INTERVAL)%N.
Proof.
  unfold runsWithin. simpl. destruct (ms <? POLL_INTERVAL)%N eqn:E.
  - apply N.ltb_lt in E. by rewrite N.div_small.
  - apply N.ltb_ge in E.
    replace ms with ((ms - POLL_INTERVAL) + 1 * POLL_INTERVAL)%N at 2 by lia.
    rewrite N.div_add by done. lia.
Qed.

(** X19: Selecting another node starts the period anew: however long the
    previous interval had been waiting, the periodic calls made in the [ms]
    milliseconds after the switch are one for each full 60000 ms, all for the
    new node. *)
Theorem switch_restarts_period (events : list Event) (nodeId : string) (ms : N) :
  let p := run mount events in
  mounted p = true → nodeId ≠ polledNode p → nodeId ≠ "" →
  (step (step p (SetSelectedNode nodeId)).1 (Advance ms)).2
  = replicate (N.to_nat (ms / POLL_INTERVAL)) nodeId.
Proof.
  intros p Hm Hne Hnonempty.
  pose proof (poller_inv_run events mount poller_inv_mount) as Hinv. fold p in Hinv.
  pose proof (runCleanup_clears p Hinv Hm) as Hclear.
  assert ((step p (SetSelectedNode nodeId)).1 = runEffect nodeId (runCleanup p)) as ->.
  { simpl. rewrite Hm. simpl. by destruct (String.eqb_spec nodeId (polledNode p)). }
  unfold runEffect, setInterval. simpl. rewrite Hclear. simpl. rewrite app_nil_r.
  change (runsWithin ms _) with
    (runsWithin ms {| intervalId := 0; callbackNode := ""; dueIn := POLL_INTERVAL |}).
  rewrite runs_from_full_period. unfold intervalCallback. simpl.
  destruct nodeId; [done|]. simpl.
  induction (N.to_nat _) as [|n IH]; simpl; [done|]. by rewrite IH.
Qed.

Lemma switch_restarts_period_witness :
  let p := run mount [SetSelectedNode "n1"; Advance 90000] in
  (step p (Advance 30000)).2 = ["n1"] ∧
  (step (step p (SetSelectedNode "n2")).1 (Advance 30000)).2 = [] ∧
  (step (step p (SetSelectedNode "n2")).1 (Advance 130000)).2 = ["n2"; "n2"].
Proof.
  intros p. subst p. split; [vm_compute; reflexivity|]. split.
  - rewrite (switch_restarts_period [SetSelectedNode "n1"; Advance 90000] "n2" 30000);
      [reflexivity|reflexivity|discriminate|discriminate].
  - rewrite (switch_restarts_period [SetSelectedNode "n1"; Advance 90000] "n2" 130000);
      [reflexivity|reflexivity|discriminate|discriminate].
Defined.

(** ** The application shell *)

Lemma prefix_append (sub s : string) :
  String.prefix sub s = true ↔ ∃ post, s = String.append sub post.
Proof.
  revert s. induction sub as [|a sub IH]; intros s; simpl.
  - split; [intros _; by exists s|intros _; by destruct s].
  - destruct s as [|b s]; [split; [done|by intros [post ?]]|]. simpl.
    destruct (Ascii.ascii_dec a b) as [->|Hne].
    + rewrite IH. split; intros [post Hpost]; exists post.
      * by rewrite Hpost.
      * change (String b s = String b (String.append sub post)) in Hpost.
        congruence.
    + split; [done|]. intros [post Hpost].
      change (String b s = String a (String.append sub post)) in Hpost.
      congruence.
Qed.

Lemma String_includes_substring (s sub : string) :
  String_includes s sub = true
  ↔ ∃ pre post, s = String.append pre (String.append sub post).
Proof.
  induction s as [|a s IH].
  - cbn [String_includes]. destruct (String.prefix sub "") eqn:E.
    + apply prefix_append in E as [post Hpost]. split; [|done].
      intros _. exists "", post. exact Hpost.
    + split; [done|]. intros (pre & post & Hs).
      destruct pre; [|done].
      assert (String.prefix sub "" = true) as Hp
        by (apply prefix_append; exists post; exact Hs).
      congruence.
  - cbn [String_includes]. destruct (String.prefix sub (String a s)) eqn:E.
    + apply prefix_append in E as [post Hpost]. split; [|done].
      intros _. exists "", post. exact Hpost.
    + rewrite IH. split.
      * intros (pre & post & ->). by exists (String a pre), post.
      * intros (pre & post & Hs). destruct pre as [|b pre].
        -- assert (String.prefix sub (String a s) = true) as Hp
             by (apply prefix_append; exists post; exact Hs).
           congruence.
        -- change (String a s
                   = String b (String.append pre (String.append sub post))) in Hs.
           injection Hs as _ ->. by exists pre, post.
Qed.

(** X20: The shell renders exactly one page: workload management when
    [workloadManagement] occurs anywhere in the path, in this letter case,
    and the top queries otherwise. *)
Theorem app_route_by_path_substring (pathname : string) :
  (QueryInsightsDashboardsApp pathname = [WorkloadManagementPage]
   ∨ QueryInsightsDashboardsApp pathname = [TopNQueriesPage]) ∧
  (QueryInsightsDashboardsApp pathname = [WorkloadManagementPage]
   ↔ ∃ pre post,
       pathname = String.append pre (String.append "workloadManagement" post)).
Proof.
  rewrite <- String_includes_substring. unfold QueryInsightsDashboardsApp.
  destruct (String_includes pathname "workloadManagement"); simpl.
  - split; [by left|done].
  - split; [by right|done].
Qed.

(** ** The periodic refresh and the render that registered it *)

Lemma withView_closureOf (st : State) : withView (closureOf st) st = st.
Proof. by destruct st. Qed.

(** The [fetchStatsForNode] of a render is the cycle run with the search
    text, sort and page of that render, which leaves the ones of the state
    as they are. *)
Lemma fetchStatsForNode_in_view `{Host} (c : Closure) (http : Http) (nodeId : string)
    (st : State) :
  fetchStatsForNode_in c http nodeId st
  = withView (closureOf st) (fetchStatsForNode http nodeId (withView c st)).
Proof.
  unfold fetchStatsForNode_in, fetchStatsForNode, fetchStatsForNode_try_in,
    fetchStatsForNode_try.
  destruct (fetchWorkloadGroupNameMap http); [|done].
  destruct (fetchWorkloadGroupsForNode http nodeId); [|done]. simpl.
  destruct (if truthy_string (seenSearchQuery c) then _ else _); done.
Qed.

Lemma fetchStatsForNode_in_current `{Host} (http : Http) (nodeId : string) (st : State) :
  fetchStatsForNode_in (closureOf st) http nodeId st = fetchStatsForNode http nodeId st.
Proof.
  rewrite fetchStatsForNode_in_view, withView_closureOf.
  pose proof (fetchStatsForNode_frame http nodeId st) as (Hq&Hi&Hs&Hf&Hd&_&Hn&_).
  replace (closureOf st) with (closureOf (fetchStatsForNode http nodeId st))
    by (unfold closureOf; by rewrite Hq, Hi, Hs, Hf, Hd, Hn).
  apply withView_closureOf.
Qed.

Lemma onSearchChange_selectedNode `{Host} (value : string) (st st' : State) :
  onSearchChange value st = Some st' → selectedNode st' = selectedNode st.
Proof.
  unfold onSearchChange.
  destruct (negb _); [by intros [= <-]|].
  destruct (Array_filter _ _); [by intros [= <-]|done].
Qed.

Lemma onTableChange_selectedNode `{Host} (criteria : Criteria) (st st' : State) :
  onTableChange criteria st = Some st' → selectedNode st' = selectedNode st.
Proof.
  unfold onTableChange.
  destruct (criteria_sort criteria) as [[field direction]|];
    destruct (criteria_page criteria) as [[index size]|]; simpl.
  - destruct (if truthy_string (searchQuery st) then _ else _); [by intros [= <-]|done].
  - destruct (if truthy_string (searchQuery st) then _ else _); [by intros [= <-]|done].
  - by intros [= <-].
  - by intros [= <-].
Qed.

Lemma handle_selectedNode `{Host} (http : Http) (a : Action) (comp : Component)
    (st : State) :
  keepsSelection a = true → handle http a comp = Some st →
  selectedNode st = selectedNode (current comp).
Proof.
  destruct a as [value|criteria|nodeId| |nodesResponse|]; simpl; try done; intros _.
  - apply onSearchChange_selectedNode.
  - apply onTableChange_selectedNode.
  - intros [= <-].
    by pose proof (fetchStatsForNode_frame http (selectedNode (current comp))
                     (current comp)) as (_&_&_&_&_&_&?&_).
  - intros [= <-]. unfold pollingCallback.
    destruct (truthy_string _); [|done].
    rewrite fetchStatsForNode_in_view. simpl.
    by pose proof (fetchStatsForNode_frame http (seenNode (polling comp))
                     (withView (polling comp) (current comp))) as (_&_&_&_&_&_&?&_).
Qed.

Lemma runActions_keeps_closure `{Host} (actions : list (Http * Action))
    (comp comp' : Component) :
  seenNode (polling comp) = selectedNode (current comp) →
  Forall (λ a, keepsSelection a.2 = true) actions →
  runActions actions comp = Some comp' →
  polling comp' = polling comp ∧ selectedNode (current comp') = selectedNode (current comp).
Proof.
  revert comp. induction actions as [|[http a] actions IH]; intros comp Hseen Hkeep.
  - by intros [= <-].
  - apply Forall_cons in Hkeep as [Ha Hkeep]. simpl in Ha. simpl. unfold act.
    destruct (handle http a comp) as [st|] eqn:Hst; [|done]. simpl.
    pose proof (handle_selectedNode http a comp st Ha Hst) as Hnode.
    assert (pollingEffect st (polling comp) = polling comp) as Heffect.
    { unfold pollingEffect. rewrite Hnode, <- Hseen. by rewrite String.eqb_refl. }
    rewrite Heffect. intros Hrun.
    destruct (IH {| current := st; polling := polling comp |}) as [Hp Hn];
      [simpl; congruence|exact Hkeep|exact Hrun|].
    simpl in Hp, Hn. split; congruence.
Qed.

Lemma dataRows_groupIds `{Host} (http : Http) (nodeId : string) (st : State)
    (fetched : list WorkloadGroupData) :
  fetchedRows http nodeId = Some fetched →
  (truthy_string (searchQuery st) = true → Forall (λ g, is_Some (name g)) fetched) →
  groupId <$> dataRows (fetchStatsForNode http nodeId st)
  = groupId <$> Array_sort (compareRows (sortField st) (sortDirection st))
                  (searchedRows (searchQuery st) fetched).
Proof.
  intros Hfetched Hnames.
  destruct (fetchStatsForNode_spec http nodeId st fetched Hfetched Hnames)
    as (-> & _).
  set (sorted := Array_sort _ _).
  pose proof (Array_slice_split sorted (pageIndex st * pageSize st)
                ((pageIndex st + 1) * pageSize st)) as Hsplit.
  simpl in Hsplit. fold (paginate sorted (pageIndex st) (pageSize st)) in Hsplit.
  rewrite !fmap_app, <- list_fmap_compose.
  rewrite (list_fmap_ext (groupId ∘ withBoxStats http) groupId)
    by (intros i g _; apply groupId_withBoxStats).
  rewrite <- !fmap_app. by rewrite <- Hsplit.
Qed.

(** X21: The periodic refresh runs with the search text and the sort of the
    render in which the node was selected, whatever has been typed in the
    search field or chosen in the table since: it puts in the table the
    groups that match the old text, in the old order, and leaves the text of
    the search field as it is.  The next refresh does the same. *)
Theorem periodic_refresh_keeps_old_view `{Host} (actions : list (Http * Action))
    (http : Http) (comp comp' : Component) (fetched : list WorkloadGroupData) :
  let c := polling comp in
  seenNode c = selectedNode (current comp) →
  truthy_string (seenNode c) = true →
  Forall (λ a, keepsSelection a.2 = true) actions →
  runActions actions comp = Some comp' →
  fetchedRows http (seenNode c) = Some fetched →
  (truthy_string (seenSearchQuery c) = true → Forall (λ g, is_Some (name g)) fetched) →
  ∃ comp'',
    act http PollingTick comp' = Some comp'' ∧
    polling comp'' = c ∧
    searchQuery (current comp'') = searchQuery (current comp') ∧
    filteredData (current comp'') = data (current comp'') ∧
    groupId <$> dataRows (current comp'')
    = groupId <$> Array_sort (compareRows (seenSortField c) (seenSortDirection c))
                    (searchedRows (seenSearchQuery c) fetched).
Proof.
  intros c Hseen Hnode Hkeep Hrun Hfetched Hnames.
  destruct (runActions_keeps_closure actions comp comp' Hseen Hkeep Hrun)
    as [Hpolling Hselected].
  fold c in Hpolling.
  pose proof (fetchStatsForNode_frame http (seenNode c) (withView c (current comp')))
    as (_&_&_&_&_&_&Hsel&_).
  pose proof (tableItems_after_cycle http (seenNode c) (withView c (current comp'))
                fetched Hfetched Hnames) as (Hfd & _).
  pose proof (dataRows_groupIds http (seenNode c) (withView c (current comp'))
                fetched Hfetched Hnames) as Hids.
  set (st := fetchStatsForNode http (seenNode c) (withView c (current comp'))) in *.
  exists {| current := withView (closureOf (current comp')) st; polling := c |}.
  assert (pollingEffect (withView (closureOf (current comp')) st) c = c) as Heffect.
  { unfold pollingEffect.
    change (selectedNode (withView (closureOf (current comp')) st))
      with (selectedNode st).
    rewrite Hsel.
    change (selectedNode (withView c (current comp')))
      with (selectedNode (current comp')).
    by rewrite Hselected, <- Hseen, String.eqb_refl. }
  split.
  { unfold act, handle, pollingCallback. rewrite Hpolling, Hnode.
    rewrite fetchStatsForNode_in_view. fold st.
    unfold mbind, option_bind. by rewrite Heffect. }
  split; [done|]. split; [done|]. split; [exact Hfd|]. exact Hids.
Qed.

Lemma periodic_refresh_keeps_old_view_witness :
  ∃ comp comp' comp'',
    act example_http (NodeChange "n1") initialComponent = Some comp ∧
    act example_http (SearchChange "AL") comp = Some comp' ∧
    act example_http PollingTick comp' = Some comp'' ∧
    groupId <$> rows (heap (current comp')) (filteredData (current comp')) = ["a"] ∧
    searchQuery (current comp'') = "al" ∧
    groupId <$> rows (heap (current comp'')) (filteredData (current comp''))
    = ["a"; "b"; "c"].
Proof.
  assert (is_Some (act example_http (NodeChange "n1") initialComponent))
    as [comp H1] by (vm_compute; by eexists).
  assert (is_Some (act example_http (SearchChange "AL") comp))
    as [comp' H2].
  { vm_compute in H1. injection H1 as <-. vm_compute. by eexists. }
  assert (polling comp = closureOf (setSelectedNode "n1" initialState)) as Hc
    by (vm_compute in H1; by injection H1 as <-).
  assert (selectedNode (current comp) = "n1") as Hn
    by (vm_compute in H1; by injection H1 as <-).
  destruct (periodic_refresh_keeps_old_view [(example_http, SearchChange "AL")]
              example_http comp comp'
              (newRow {[ "a" := "Alpha"; "b" := "Beta"; "c" := "Gamma" ]}
                      (fetchWorkloadGroupsWithLimits example_http)
                 <$> example_node_groups))
    as (comp'' & H3 & _ & Hq & Hfd & Hids).
  - by rewrite Hc, Hn.
  - by rewrite Hc.
  - by repeat constructor.
  - simpl. by rewrite H2.
  - by rewrite Hc.
  - rewrite Hc. discriminate.
  - exists comp, comp', comp''. split; [exact H1|]. split; [exact H2|].
    split; [exact H3|]. rewrite Hq, Hfd. fold (dataRows (current comp'')).
    rewrite Hids, Hc.
    vm_compute in H1. injection H1 as <-. vm_compute in H2. injection H2 as <-.
    repeat split; vm_compute; reflexivity.
Defined.

(** ** The table after a cycle of any render *)

Lemma tableItems_withView (c : Closure) (st : State) :
  tableItems (withView c st)
  = rows (heap st) (paginate (filteredData st) (seenPageIndex c) (seenPageSize c)).
Proof. done. Qed.

(** X7: When the [fetchStatsForNode] that runs holds the page index and size of
    the state, as the one of the last render does, the rows shown after the
    cycle are the page of the sorted rows the cycle made its detail requests
    for, each after its own detail round: a row whose request was rejected
    has empty box-plot arrays, any other row has the box-plot statistics of
    the samples of its detail response. *)
Theorem visible_rows_hold_detail_results `{Host} (c : Closure) (http : Http)
    (nodeId : string) (st : State) (fetched : list WorkloadGroupData) :
  fetchedRows http nodeId = Some fetched →
  (truthy_string (seenSearchQuery c) = true → Forall (λ g, is_Some (name g)) fetched) →
  seenPageIndex c = pageIndex st → seenPageSize c = pageSize st →
  let st' := fetchStatsForNode_in c http nodeId st in
  let sorted := Array_sort (compareRows (seenSortField c) (seenSortDirection c))
                           (searchedRows (seenSearchQuery c) fetched) in
  fetchStatsForNode_in (closureOf st) http nodeId st = fetchStatsForNode http nodeId st ∧
  tableItems st' = withBoxStats http <$> paginate sorted (pageIndex st) (pageSize st) ∧
  Forall (λ g, match get_group_stats http (groupId g) with
               | None => cpuStats g = [] ∧ memStats g = []
               | Some stats =>
                   cpuStats g = computeBoxStats (nodeUsages (groupId g) stats).1 ∧
                   memStats g = computeBoxStats (nodeUsages (groupId g) stats).2
               end) (tableItems st').
Proof.
  intros Hfetched Hnames Hindex Hsize st' sorted.
  split; [apply fetchStatsForNode_in_current|].
  destruct (cycle_page_holds_detail_results http nodeId (withView c st) fetched
              Hfetched Hnames) as (Hitems & Hall).
  pose proof (tableItems_after_cycle http nodeId (withView c st) fetched
                Hfetched Hnames) as (_ & Hpi & Hps & _).
  set (cycle := fetchStatsForNode http nodeId (withView c st)) in *.
  assert (tableItems st' = tableItems cycle) as Hsame.
  { subst st'. rewrite fetchStatsForNode_in_view. fold cycle.
    rewrite tableItems_withView. unfold tableItems.
    rewrite Hpi, Hps. simpl. by rewrite Hindex, Hsize. }
  rewrite Hsame. split; [|exact Hall].
  rewrite Hitems. simpl. by rewrite Hindex, Hsize.
Qed.

Lemma visible_rows_hold_detail_results_witness :
  let st := setSearchQuery "al" initialState in
  let st' := fetchStatsForNode_in (closureOf initialState) example_http_unreported "n1" st in
  groupId <$> tableItems st' = ["a"; "b"; "c"] ∧
  (λ g, length (cpuStats g)) <$> tableItems st' = [5; 5; 5]%nat ∧
  Forall (λ g, match get_group_stats example_http_unreported (groupId g) with
               | None => cpuStats g = [] ∧ memStats g = []
               | Some stats =>
                   cpuStats g = computeBoxStats (nodeUsages (groupId g) stats).1 ∧
                   memStats g = computeBoxStats (nodeUsages (groupId g) stats).2
               end) (tableItems st').
Proof.
  intros st st'.
  destruct (visible_rows_hold_detail_results (closureOf initialState)
              example_http_unreported "n1" st
              (newRow {[ "a" := "Alpha"; "b" := "Beta"; "c" := "Gamma" ]}
                      (fetchWorkloadGroupsWithLimits example_http_unreported)
                 <$> example_node_groups)) as (_ & _ & Hall).
  - reflexivity.
  - discriminate.
  - reflexivity.
  - reflexivity.
  - split; [vm_compute; reflexivity|]. split; [vm_compute; reflexivity|exact Hall].
Defined.

(** A sort from the header of the table, when every row of [data] matches
    the search text of the state. *)
Lemma onTableChange_sort_matching `{Host} (st : State) (field : SortField)
    (direction : SortDirection) :
  (truthy_string (searchQuery st) = true →
   Forall (λ g, matchesName (searchQuery st) g = true) (dataRows st)) →
  onTableChange {| criteria_sort := Some (field, direction); criteria_page := None |} st
  = Some (setFilteredData (sortData (heap st) (data st) field direction)
            (setSort field direction st)).
Proof.
  intros Hmatch.
  assert ((if truthy_string (searchQuery st)
           then Array_filter (matchesSearch (heap st) (searchQuery st))
                             (sortData (heap st) (data st) field direction)
           else Some (sortData (heap st) (data st) field direction))
          = Some (sortData (heap st) (data st) field direction)) as Hfilter.
  { destruct (truthy_string (searchQuery st)); [|done].
    rewrite (Array_filter_Some _ _ (λ _, true));
      [rewrite filter_all; [done|by apply Forall_true]|].
    unfold sortData. rewrite Array_sort_Permutation.
    specialize (Hmatch eq_refl). unfold dataRows, rows in Hmatch.
    apply (proj1 (Forall_fmap _ _ _)) in Hmatch.
    eapply Forall_impl; [exact Hmatch|]. intros r Hr.
    change (matchesName (searchQuery st) (deref (heap st) r) = true) in Hr.
    unfold matchesSearch. unfold matchesName in Hr.
    destruct (name (deref (heap st) r)); [|done]. simpl. by rewrite Hr. }
  unfold onTableChange. cbn [criteria_sort criteria_page]. by rewrite Hfilter.
Qed.

(** X16: When the [fetchStatsForNode] that runs holds the search text of the
    state, as the one of the last render does, sorting from the header of the
    table after the cycle loses no row: the filter is applied again with the
    same search text, which every row of the cycle matches, and the rows are
    those of the cycle in the new order, with the box-plot arrays the cycle
    left them.  [data] keeps the order of the cycle. *)
Theorem table_sort_keeps_rows `{Host} (c : Closure) (http : Http) (nodeId : string)
    (st : State) (fetched : list WorkloadGroupData)
    (field : SortField) (direction : SortDirection) :
  fetchedRows http nodeId = Some fetched →
  (truthy_string (seenSearchQuery c) = true → Forall (λ g, is_Some (name g)) fetched) →
  seenSearchQuery c = searchQuery st →
  let st' := fetchStatsForNode_in c http nodeId st in
  fetchStatsForNode_in (closureOf st) http nodeId st = fetchStatsForNode http nodeId st ∧
  ∃ st2,
    onTableChange {| criteria_sort := Some (field, direction);
                     criteria_page := None |} st' = Some st2 ∧
    filteredData st2 = sortData (heap st') (data st') field direction ∧
    rows (heap st2) (filteredData st2) ≡ₚ dataRows st' ∧
    data st2 = data st' ∧ heap st2 = heap st' ∧
    sortField st2 = field ∧ sortDirection st2 = direction.
Proof.
  intros Hfetched Hnames Hquery st'.
  split; [apply fetchStatsForNode_in_current|].
  assert (truthy_string (searchQuery st') = true →
          Forall (λ g, matchesName (searchQuery st') g = true) (dataRows st')) as Hmatch.
  { subst st'. rewrite fetchStatsForNode_in_view.
    change (truthy_string (searchQuery st) = true →
            Forall (λ g, matchesName (searchQuery st) g = true)
                   (dataRows (fetchStatsForNode http nodeId (withView c st)))).
    rewrite <- Hquery. intros Htruthy.
    exact (dataRows_match http nodeId (withView c st) fetched Hfetched Hnames Htruthy). }
  exists (setFilteredData (sortData (heap st') (data st') field direction)
                          (setSort field direction st')).
  split; [by apply onTableChange_sort_matching|].
  repeat split.
  change (deref (heap st') <$> sortData (heap st') (data st') field direction
          ≡ₚ deref (heap st') <$> data st').
  unfold sortData. by rewrite Array_sort_Permutation.
Qed.

Lemma table_sort_keeps_rows_witness :
  let st := setSort by_name ASC (setSearchQuery "a" initialState) in
  let st' :=
    fetchStatsForNode_in (closureOf (setSearchQuery "a" initialState)) example_http "n1" st in
  groupId <$> dataRows st' = ["a"; "b"; "c"] ∧
  ∃ st2,
    onTableChange {| criteria_sort := Some (by_totalCompletions, DESC);
                     criteria_page := None |} st' = Some st2 ∧
    groupId <$> rows (heap st2) (filteredData st2) = ["c"; "b"; "a"] ∧
    groupId <$> rows (heap st2) (data st2) = ["a"; "b"; "c"].
Proof.
  intros st st'.
  destruct (table_sort_keeps_rows (closureOf (setSearchQuery "a" initialState))
              example_http "n1" st
              (newRow {[ "a" := "Alpha"; "b" := "Beta"; "c" := "Gamma" ]}
                      (fetchWorkloadGroupsWithLimits example_http)
                 <$> example_node_groups) by_totalCompletions DESC)
    as (_ & st2 & H2 & Hfd & _ & Hdata & Hheap & _).
  - reflexivity.
  - intros _. repeat constructor; by eexists.
  - reflexivity.
  - split; [vm_compute; reflexivity|].
    exists st2. split; [exact H2|].
    rewrite Hfd, Hdata, Hheap. split; vm_compute; reflexivity.
Defined.
